(** * Sudoku_Solver.py: a shallow embedding and its properties

    The puzzle is a Python list of lists of integers, mutated in place by
    [solve_sudoku].  Lists are modelled by [list], integers by [Z], subscripts
    by stdpp's list lookup with the [IndexError] of an out-of-range subscript
    written out, and the in-place mutation by explicit state passing: the
    search returns the value of the Python call together with the puzzle as it
    is left and the sequence of assignments [puzzle[row][col] = guess] it has
    performed. *)

From Stdlib Require Import ZArith Lia.
From stdpp Require Import base tactics option list numbers relations.

Local Open Scope Z_scope.

(** ** Results of fallible computations *)

Module Py.

(** What a call can end in: a value, the [IndexError] of a subscript out of
    range, or the interpreter's recursion limit being hit. *)
Inductive result (A : Type) : Type :=
| Ret (a : A)
| IndexError
| RecursionError.
Arguments Ret {A} a.
Arguments IndexError {A}.
Arguments RecursionError {A}.

Definition bind {A B : Type} (m : result A) (k : A -> result B) : result B :=
  match m with
  | Ret a => k a
  | IndexError => IndexError
  | RecursionError => RecursionError
  end.

(** The Python values [solve_sudoku] can hand back. *)
Inductive value : Type := PyTrue | PyFalse | PyNone.

(** Truth value testing, as [if solve_sudoku(puzzle):] performs it. *)
Definition truthy (v : value) : bool :=
  match v with
  | PyTrue => true
  | PyFalse | PyNone => false
  end.

Definition is_bool (v : value) : bool :=
  match v with
  | PyTrue | PyFalse => true
  | PyNone => false
  end.

End Py.
Export Py.

Notation "'let*' x := m 'in' k" := (bind m (fun x => k))
  (at level 10, x name, m at level 100, k at level 200).

(** ** The puzzle *)

Abbreviation grid := (list (list Z)).

(** The marker of an unassigned cell. *)
Definition EMPTY : Z := -1.

(** [l[i]] for a subscript [i >= 0]. *)
Definition index {A : Type} (l : list A) (i : nat) : result A :=
  match l !! i with
  | Some x => Ret x
  | None => IndexError
  end.

(** [puzzle[r][c]] *)
Definition get (puzzle : grid) (r c : nat) : result Z :=
  let* row_vals := index puzzle r in index row_vals c.

(** [puzzle[row][col] = guess]: the row is fetched, then its item is
    assigned; either subscript can be out of range. *)
Definition set_cell (puzzle : grid) (row col : nat) (guess : Z) : result grid :=
  let* row_vals := index puzzle row in
  if decide (col < length row_vals)%nat
  then Ret (<[row := <[col := guess]> row_vals]> puzzle)
  else IndexError.

(** ** Loops with an early [return] *)

(** [for x in xs: if body(x): return ...]: the first [x] whose body gives
    [Some] ends the loop. *)
Fixpoint for_first {A B : Type} (xs : list A) (body : A -> result (option B))
  : result (option B) :=
  match xs with
  | [] => Ret None
  | x :: xs' =>
      let* o := body x in
      match o with
      | Some b => Ret (Some b)
      | None => for_first xs' body
      end
  end.

(** [range(a, a + n)] *)
Definition range (a n : nat) : list nat := seq a n.

(** ** find_next_empty_cell *)

(** The Python function returns the pair [r, c] of the first cell, in
    row-major order, that holds [-1], and [None, None] when there is none:
    [Some (r, c)] and [None] here. *)
Definition find_next_empty_cell (puzzle : grid) : result (option (nat * nat)) :=
  for_first (range 0 9) (fun r =>
    for_first (range 0 9) (fun c =>
      let* x := get puzzle r c in
      if x =? -1 then Ret (Some (r, c)) else Ret None)).

(** ** is_valid_number *)

(** [guess in row_vals] *)
Definition contains (guess : Z) (row_vals : list Z) : bool :=
  existsb (Z.eqb guess) row_vals.

(** A scan that answers [Some tt] where the Python loop executes
    [return False]. *)
Definition hit (b : bool) : result (option unit) :=
  if b then Ret (Some tt) else Ret None.

Definition is_valid_number (puzzle : grid) (guess : Z) (row col : nat)
  : result bool :=
  let* row_vals := index puzzle row in
  if contains guess row_vals then Ret false else
  let* in_col := for_first (range 0 9) (fun i =>
                    let* x := get puzzle i col in hit (x =? guess)) in
  if in_col is Some _ then Ret false else
  let row_start_idx := ((row / 3) * 3)%nat in
  let col_start_idx := ((col / 3) * 3)%nat in
  let* in_box := for_first (range row_start_idx 3) (fun r =>
                    for_first (range col_start_idx 3) (fun c =>
                      let* x := get puzzle r c in hit (x =? guess))) in
  if in_box is Some _ then Ret false else Ret true.

(** ** solve_sudoku *)

(** One execution of the assignment [puzzle[row][col] = guess].  [w_entry] is
    the puzzle as it was when the activation of [solve_sudoku] that performs
    the assignment was entered; [w_before] and [w_after] are the puzzle right
    before and right after the assignment. *)
Record write : Type := Write {
  w_entry : grid;
  w_before : grid;
  w_row : nat;
  w_col : nat;
  w_val : Z;
  w_after : grid
}.

(** What a call of [solve_sudoku] leaves behind: the value it returns, the
    puzzle as mutated, and the assignments it performed, oldest first. *)
Record outcome : Type := Outcome {
  returned : value;
  final : grid;
  trace : list write
}.

(** [range(1, 10)] *)
Definition guesses : list Z := map Z.of_nat (range 1 9).

Section Loop.

(** The recursive call, and the cell and entry state of this activation. *)
Variable rec : grid -> result outcome.
Variable entry : grid.
Variables row col : nat.

(** The [for guess in ...] loop of [solve_sudoku], from the candidates
    still to try and the current puzzle.  After a recursive call that is
    not truthy the loop goes on with the puzzle as that call left it; when
    the candidates run out the function falls off its end, which in Python
    returns [None]. *)
Fixpoint try_guesses (todo : list Z) (puzzle : grid) : result outcome :=
  match todo with
  | [] => Ret (Outcome PyNone puzzle [])
  | guess :: todo' =>
      let* ok := is_valid_number puzzle guess row col in
      if ok : bool then
        let* puzzle1 := set_cell puzzle row col guess in
        let w := Write entry puzzle row col guess puzzle1 in
        let* o := rec puzzle1 in
        if truthy (returned o)
        then Ret (Outcome PyTrue (final o) (w :: trace o))
        else
          let* o' := try_guesses todo' (final o) in
          Ret (Outcome (returned o') (final o') (w :: trace o ++ trace o'))
      else try_guesses todo' puzzle
  end.

End Loop.

(** [solve_fuel n] runs [solve_sudoku] with room for [n] nested activations
    on the call stack. *)
Fixpoint solve_fuel (n : nat) (puzzle : grid) : result outcome :=
  match n with
  | O => RecursionError
  | S n' =>
      let* cell := find_next_empty_cell puzzle in
      match cell with
      | None => Ret (Outcome PyTrue puzzle [])
      | Some (row, col) =>
          try_guesses (solve_fuel n') puzzle row col guesses puzzle
      end
  end.

(** CPython's default recursion limit, counted here in activations of
    [solve_sudoku] alone. *)
Definition recursion_limit : nat := 1000.

Definition solve_sudoku (puzzle : grid) : result outcome :=
  solve_fuel recursion_limit puzzle.

(** ** Vocabulary of the properties *)

(** The 81 positions of the board, in row-major order. *)
Definition cells : list (nat * nat) :=
  r ← range 0 9; c ← range 0 9; [(r, c)].

(** The content of a cell, for reading a puzzle in statements. *)
Definition cell (puzzle : grid) (p : nat * nat) : Z :=
  match get puzzle p.1 p.2 with
  | Ret x => x
  | _ => 0
  end.

(** A 9x9 puzzle: nine rows of nine cells each. *)
Definition wf_grid (puzzle : grid) : bool :=
  (length puzzle =? 9)%nat && forallb (fun row_vals => (length row_vals =? 9)%nat) puzzle.

(** Every cell holds 1..9 or [EMPTY]. *)
Definition in_domain (puzzle : grid) : bool :=
  forallb (forallb (fun x => (x =? EMPTY) || ((1 <=? x) && (x <=? 9)))) puzzle.

(** [p] and [q] lie in a common row, column or aligned 3x3 box. *)
Definition same_unit (p q : nat * nat) : bool :=
  (p.1 =? q.1)%nat || (p.2 =? q.2)%nat
  || ((p.1 / 3 =? q.1 / 3)%nat && (p.2 / 3 =? q.2 / 3)%nat).

Definition same_cell (p q : nat * nat) : bool :=
  (p.1 =? q.1)%nat && (p.2 =? q.2)%nat.

(** [v] occurs in the row, the column or the box of [p], at [p] or not. *)
Definition occurs (puzzle : grid) (v : Z) (p : nat * nat) : bool :=
  existsb (fun q => same_unit p q && (cell puzzle q =? v)) cells.

(** [v] occurs in the row, the column or the box of [p] at a cell other than
    [p]. *)
Definition occurs_elsewhere (puzzle : grid) (v : Z) (p : nat * nat) : bool :=
  existsb (fun q => same_unit p q && negb (same_cell p q) && (cell puzzle q =? v))
    cells.

(** No value occurs twice in a row, a column or a box: the value of a cell
    that is not [EMPTY] occurs nowhere else in the units of that cell. *)
Definition consistent (puzzle : grid) : bool :=
  forallb (fun p => (cell puzzle p =? EMPTY)
                    || negb (occurs_elsewhere puzzle (cell puzzle p) p)) cells.

(** No cell is [EMPTY]. *)
Definition full (puzzle : grid) : bool :=
  forallb (fun p => negb (cell puzzle p =? EMPTY)) cells.

(** The number of [EMPTY] cells. *)
Definition count_empty (puzzle : grid) : nat :=
  length (filter (fun p => cell puzzle p = EMPTY) cells).

(** The 27 units: rows, columns and aligned 3x3 boxes, as lists of
    positions. *)
Definition row_unit (r : nat) : list (nat * nat) :=
  map (fun c => (r, c)) (range 0 9).
Definition col_unit (c : nat) : list (nat * nat) :=
  map (fun r => (r, c)) (range 0 9).
Definition box_unit (b : nat) : list (nat * nat) :=
  r ← range (b / 3 * 3) 3; c ← range (b `mod` 3 * 3) 3; [(r, c)].
Definition units : list (list (nat * nat)) :=
  map row_unit (range 0 9) ++ map col_unit (range 0 9) ++ map box_unit (range 0 9).

(** How many cells of the unit [u] hold [v]. *)
Definition occurrences (puzzle : grid) (u : list (nat * nat)) (v : Z) : nat :=
  length (filter (fun p => cell puzzle p = v) u).

(** A solved puzzle: each unit holds each of 1..9 exactly once. *)
Definition solved (puzzle : grid) : bool :=
  forallb (fun u => forallb (fun v => (occurrences puzzle u v =? 1)%nat) guesses)
    units.

(** The three scans of [is_valid_number], read on a 9x9 puzzle as three
    membership tests. *)
Definition in_row (puzzle : grid) (v : Z) (row : nat) : bool :=
  existsb (fun c => cell puzzle (row, c) =? v) (range 0 9).
Definition in_col (puzzle : grid) (v : Z) (col : nat) : bool :=
  existsb (fun r => cell puzzle (r, col) =? v) (range 0 9).
Definition in_box (puzzle : grid) (v : Z) (row col : nat) : bool :=
  existsb (fun r => existsb (fun c => cell puzzle (r, c) =? v) (range (col / 3 * 3) 3))
    (range (row / 3 * 3) 3).

(** ** The shape of a run *)

(** A validated assignment: the only way [solve_sudoku] changes the puzzle. *)
Definition step (g g' : grid) : Prop :=
  exists row col guess,
    (row, col) ∈ cells /\ guess ∈ guesses /\
    is_valid_number g guess row col = Ret true /\
    set_cell g row col guess = Ret g'.

Definition reach : grid -> grid -> Prop := rtc step.

(** What is known of an assignment of a run started on [g0]. *)
Record write_ok (g0 : grid) (w : write) : Prop := WriteOk {
  ok_entry : reach g0 (w_entry w);
  ok_cell : find_next_empty_cell (w_entry w) = Ret (Some (w_row w, w_col w));
  ok_before : reach (w_entry w) (w_before w);
  ok_val : w_val w ∈ guesses;
  ok_valid : is_valid_number (w_before w) (w_val w) (w_row w) (w_col w) = Ret true;
  ok_after : set_cell (w_before w) (w_row w) (w_col w) (w_val w) = Ret (w_after w)
}.

(** The assignments of [tr] lead from [g] to [g'], each starting where the
    previous one ended. *)
Fixpoint chain (g : grid) (tr : list write) (g' : grid) : Prop :=
  match tr with
  | [] => g' = g
  | w :: tr' => w_before w = g /\ chain (w_after w) tr' g'
  end.

Definition sound (g : grid) (o : outcome) : Prop :=
  chain g (trace o) (final o) /\
  Forall (write_ok g) (trace o) /\
  (returned o = PyTrue /\ find_next_empty_cell (final o) = Ret None
   \/ returned o = PyNone).

(** Cells are only ever filled: what is [EMPTY] later was [EMPTY] before. *)
Definition fills (g g' : grid) : Prop :=
  forall p, cell g' p = EMPTY -> cell g p = EMPTY.

(** ** Concrete puzzles *)

(** No clue at all. *)
Definition empty_grid : grid := replicate 9 (replicate 9 EMPTY).

(** A single clue, 5 in the top left corner. *)
Definition clue_grid : grid :=
  [5; -1; -1; -1; -1; -1; -1; -1; -1] :: replicate 8 (replicate 9 EMPTY).

(** A puzzle with no solution: the second cell of the first row can only
    take 1 or 2, and both stand in its column already. *)
Definition blocked_grid : grid :=
  [[-1; -1;  3;  4;  5;  6;  7;  8;  9];
   [-1; -1; -1; -1; -1; -1; -1; -1; -1];
   [-1; -1; -1; -1; -1; -1; -1; -1; -1];
   [-1;  1; -1; -1; -1; -1; -1; -1; -1];
   [-1;  2; -1; -1; -1; -1; -1; -1; -1];
   [-1; -1; -1; -1; -1; -1; -1; -1; -1];
   [-1; -1; -1; -1; -1; -1; -1; -1; -1];
   [-1; -1; -1; -1; -1; -1; -1; -1; -1];
   [-1; -1; -1; -1; -1; -1; -1; -1; -1]].

(** A solved puzzle, and the same with nine cells blanked. *)
Definition solved_grid : grid :=
  [[1; 2; 3; 4; 5; 6; 7; 8; 9];
   [4; 5; 6; 7; 8; 9; 1; 2; 3];
   [7; 8; 9; 1; 2; 3; 4; 5; 6];
   [2; 1; 4; 3; 6; 5; 8; 9; 7];
   [3; 6; 5; 8; 9; 7; 2; 1; 4];
   [8; 9; 7; 2; 1; 4; 3; 6; 5];
   [5; 3; 1; 6; 4; 2; 9; 7; 8];
   [6; 4; 2; 9; 7; 8; 5; 3; 1];
   [9; 7; 8; 5; 3; 1; 6; 4; 2]].

Definition holes_grid : grid :=
  [[-1;  2;  3;  4; -1;  6;  7;  8;  9];
   [ 4;  5;  6;  7;  8;  9;  1;  2;  3];
   [ 7;  8; -1;  1;  2;  3;  4;  5;  6];
   [ 2;  1;  4;  3;  6;  5;  8;  9;  7];
   [ 3;  6;  5;  8; -1;  7;  2;  1;  4];
   [ 8;  9;  7;  2;  1;  4;  3;  6;  5];
   [ 5;  3;  1;  6;  4;  2; -1; -1;  8];
   [ 6;  4;  2;  9;  7;  8;  5;  3;  1];
   [-1;  7;  8;  5;  3;  1;  6; -1; -1]].

(** ** Vocabulary of the further properties *)

(** [q] comes before [p] in row-major order. *)
Definition before (q p : nat * nat) : Prop :=
  (q.1 < p.1)%nat \/ (q.1 = p.1 /\ (q.2 < p.2)%nat).

(** The cell [q] can be read and does not hold [EMPTY]. *)
Definition filled (puzzle : grid) (q : nat * nat) : Prop :=
  exists x, get puzzle q.1 q.2 = Ret x /\ x <> EMPTY.

(** A puzzle whose first EMPTY cell, the last of the first row, admits no
    value: the row holds 1..8 and the column holds 9. *)
Definition dead_end_grid : grid :=
  [[ 1;  2;  3;  4;  5;  6;  7;  8; -1];
   [-1; -1; -1; -1; -1; -1; -1; -1;  9];
   [-1; -1; -1; -1; -1; -1; -1; -1; -1];
   [-1; -1; -1; -1; -1; -1; -1; -1; -1];
   [-1; -1; -1; -1; -1; -1; -1; -1; -1];
   [-1; -1; -1; -1; -1; -1; -1; -1; -1];
   [-1; -1; -1; -1; -1; -1; -1; -1; -1];
   [-1; -1; -1; -1; -1; -1; -1; -1; -1];
   [-1; -1; -1; -1; -1; -1; -1; -1; -1]].

(** [solved_grid] with its last cell blanked. *)
Definition one_hole_grid : grid :=
  [[1; 2; 3; 4; 5; 6; 7; 8; 9];
   [4; 5; 6; 7; 8; 9; 1; 2; 3];
   [7; 8; 9; 1; 2; 3; 4; 5; 6];
   [2; 1; 4; 3; 6; 5; 8; 9; 7];
   [3; 6; 5; 8; 9; 7; 2; 1; 4];
   [8; 9; 7; 2; 1; 4; 3; 6; 5];
   [5; 3; 1; 6; 4; 2; 9; 7; 8];
   [6; 4; 2; 9; 7; 8; 5; 3; 1];
   [9; 7; 8; 5; 3; 1; 6; 4; -1]].

(** * Proofs *)

(** ** The result monad *)

Lemma bind_Ret {A B : Type} (m : result A) (k : A -> result B) (b : B) :
  bind m k = Ret b -> exists a, m = Ret a /\ k a = Ret b.
Proof. destruct m; simpl; intros H; try discriminate; eauto. Qed.

(** Splits a hypothesis [bind m k = Ret b] into its two halves. *)
Ltac inv_bind H :=
  let a := fresh "a" in
  let Ha := fresh "Ha" in
  apply bind_Ret in H; destruct H as (a & Ha & H).

(** ** Loops *)

Lemma for_first_Some {A B : Type} (xs : list A) (body : A -> result (option B)) b :
  for_first xs body = Ret (Some b) ->
  exists x, x ∈ xs /\ body x = Ret (Some b).
Proof.
  induction xs as [|x xs IH]; simpl; intros H; [discriminate|].
  inv_bind H. destruct a as [b'|].
  - injection H as ->. exists x. split; [left | done].
  - destruct (IH H) as (y & Hy & Hb). exists y. split; [by right | done].
Qed.

Lemma for_first_None {A B : Type} (xs : list A) (body : A -> result (option B)) :
  for_first xs body = Ret None <-> forall x, x ∈ xs -> body x = Ret None.
Proof.
  induction xs as [|x xs IH]; simpl.
  - split; [intros _ y Hy; by apply elem_of_nil in Hy | done].
  - split.
    + intros H. inv_bind H. destruct a; [discriminate|].
      intros y [->|Hy]%elem_of_cons; [done | by apply IH].
    + intros H. rewrite (H x) by left. simpl. apply IH.
      intros y Hy. apply H. by right.
Qed.

Lemma for_first_Ret {A B : Type} (xs : list A) (body : A -> result (option B)) :
  (forall x, x ∈ xs -> exists o, body x = Ret o) ->
  exists o, for_first xs body = Ret o.
Proof.
  induction xs as [|x xs IH]; simpl; intros H; [eauto|].
  destruct (H x) as [o Ho]; [left|]. rewrite Ho. simpl.
  destruct o; [eauto|]. apply IH. intros y Hy. apply H. by right.
Qed.

Lemma elem_of_range (a n i : nat) : i ∈ range a n <-> (a <= i < a + n)%nat.
Proof. unfold range. rewrite list_elem_of_In. apply in_seq. Qed.

(** ** Reading and writing cells *)

Lemma index_Ret {A : Type} (l : list A) (i : nat) (x : A) :
  index l i = Ret x <-> l !! i = Some x.
Proof. unfold index. destruct (l !! i); split; congruence. Qed.

Lemma get_Ret (puzzle : grid) (r c : nat) (x : Z) :
  get puzzle r c = Ret x <->
  exists row_vals, puzzle !! r = Some row_vals /\ row_vals !! c = Some x.
Proof.
  unfold get. split.
  - intros H. inv_bind H. apply index_Ret in Ha, H. eauto.
  - intros (row_vals & Hr & Hc). apply index_Ret in Hr, Hc. by rewrite Hr.
Qed.

Lemma set_cell_Ret (puzzle : grid) (row col : nat) (guess : Z) (puzzle' : grid) :
  set_cell puzzle row col guess = Ret puzzle' <->
  exists row_vals, puzzle !! row = Some row_vals /\ (col < length row_vals)%nat /\
    puzzle' = <[row := <[col := guess]> row_vals]> puzzle.
Proof.
  unfold set_cell. split.
  - intros H. inv_bind H. apply index_Ret in Ha. case_decide; [|discriminate].
    injection H as <-. eauto.
  - intros (row_vals & Hr & Hc & ->). apply index_Ret in Hr. rewrite Hr. simpl.
    by rewrite decide_True.
Qed.

Lemma get_set_eq (puzzle : grid) (row col : nat) (guess : Z) (puzzle' : grid) :
  set_cell puzzle row col guess = Ret puzzle' ->
  get puzzle' row col = Ret guess.
Proof.
  intros (row_vals & Hr & Hc & ->)%set_cell_Ret. apply get_Ret.
  exists (<[col := guess]> row_vals). split.
  - apply list_lookup_insert_eq. by eapply lookup_lt_Some.
  - by apply list_lookup_insert_eq.
Qed.

Lemma get_set_ne (puzzle : grid) (row col : nat) (guess : Z) (puzzle' : grid) r c :
  set_cell puzzle row col guess = Ret puzzle' ->
  (r, c) <> (row, col) ->
  get puzzle' r c = get puzzle r c.
Proof.
  intros (row_vals & Hr & Hc & ->)%set_cell_Ret Hne. unfold get, index.
  destruct (decide (r = row)) as [->|Hrow].
  - rewrite list_lookup_insert_eq by by eapply lookup_lt_Some. rewrite Hr. simpl.
    rewrite list_lookup_insert_ne; [done | congruence].
  - by rewrite list_lookup_insert_ne.
Qed.

Lemma cell_set_eq (puzzle : grid) (row col : nat) (guess : Z) (puzzle' : grid) :
  set_cell puzzle row col guess = Ret puzzle' ->
  cell puzzle' (row, col) = guess.
Proof. intros H. unfold cell. simpl. by rewrite (get_set_eq _ _ _ _ _ H). Qed.

Lemma cell_set_ne (puzzle : grid) (row col : nat) (guess : Z) (puzzle' : grid) p :
  set_cell puzzle row col guess = Ret puzzle' ->
  p <> (row, col) ->
  cell puzzle' p = cell puzzle p.
Proof.
  intros H Hne. unfold cell. destruct p as [r c]. simpl.
  by rewrite (get_set_ne _ _ _ _ _ r c H).
Qed.

(** ** 9x9 puzzles *)

Lemma wf_grid_spec (puzzle : grid) :
  wf_grid puzzle = true <->
  length puzzle = 9%nat /\ Forall (fun row_vals => length row_vals = 9%nat) puzzle.
Proof.
  unfold wf_grid. rewrite andb_true_iff, Nat.eqb_eq, forallb_forall, List.Forall_forall.
  by setoid_rewrite Nat.eqb_eq.
Qed.

Lemma elem_of_cells (p : nat * nat) : p ∈ cells <-> (p.1 < 9)%nat /\ (p.2 < 9)%nat.
Proof.
  unfold cells. rewrite list_elem_of_bind. split.
  - intros (r & (c & Hp & Hc%elem_of_range)%list_elem_of_bind & Hr%elem_of_range).
    apply list_elem_of_singleton in Hp as ->. simpl. lia.
  - intros [H1 H2]. exists p.1. split; [|apply elem_of_range; lia].
    apply list_elem_of_bind. exists p.2. split; [|apply elem_of_range; lia].
    destruct p. simpl. by apply list_elem_of_singleton.
Qed.

Lemma wf_get (puzzle : grid) (r c : nat) :
  wf_grid puzzle = true -> (r, c) ∈ cells -> get puzzle r c = Ret (cell puzzle (r, c)).
Proof.
  intros [Hlen Hrows]%wf_grid_spec [H1 H2]%elem_of_cells. simpl in *.
  destruct (lookup_lt_is_Some_2 puzzle r) as [row_vals Hr]; [lia|].
  assert (length row_vals = 9%nat) as Hl
    by (by eapply (Forall_lookup_1 _ _ _ _ Hrows)).
  destruct (lookup_lt_is_Some_2 row_vals c) as [x Hx]; [lia|].
  assert (get puzzle r c = Ret x) as Hg by (apply get_Ret; eauto).
  unfold cell. simpl. by rewrite Hg.
Qed.

Lemma wf_set_cell (puzzle : grid) (row col : nat) (guess : Z) :
  wf_grid puzzle = true -> (row, col) ∈ cells ->
  exists puzzle', set_cell puzzle row col guess = Ret puzzle'.
Proof.
  intros [Hlen Hrows]%wf_grid_spec [H1 H2]%elem_of_cells. simpl in *.
  destruct (lookup_lt_is_Some_2 puzzle row) as [row_vals Hr]; [lia|].
  assert (length row_vals = 9%nat) as Hl
    by (by eapply (Forall_lookup_1 _ _ _ _ Hrows)).
  eexists. apply set_cell_Ret. exists row_vals. split_and!; [done | lia | done].
Qed.

Lemma set_cell_wf (puzzle : grid) (row col : nat) (guess : Z) (puzzle' : grid) :
  set_cell puzzle row col guess = Ret puzzle' ->
  wf_grid puzzle = true -> wf_grid puzzle' = true.
Proof.
  intros (row_vals & Hr & Hc & ->)%set_cell_Ret [Hlen Hrows]%wf_grid_spec.
  apply wf_grid_spec. rewrite length_insert. split; [done|].
  apply Forall_insert; [done|]. rewrite length_insert.
  by eapply (Forall_lookup_1 _ _ _ _ Hrows).
Qed.

(** ** find_next_empty_cell *)

Lemma find_next_empty_cell_Some (puzzle : grid) (row col : nat) :
  find_next_empty_cell puzzle = Ret (Some (row, col)) ->
  (row, col) ∈ cells /\ get puzzle row col = Ret EMPTY.
Proof.
  unfold find_next_empty_cell.
  intros (r & Hr%elem_of_range & (c & Hc%elem_of_range & H)%for_first_Some)%for_first_Some.
  inv_bind H. destruct (Z.eqb_spec a (-1)) as [->|]; [|discriminate].
  injection H as -> ->. split; [apply elem_of_cells; simpl; lia | done].
Qed.

Lemma find_next_empty_cell_None (puzzle : grid) :
  find_next_empty_cell puzzle = Ret None ->
  forall p, p ∈ cells -> exists x, get puzzle p.1 p.2 = Ret x /\ x <> EMPTY.
Proof.
  unfold find_next_empty_cell. intros H p [H1 H2]%elem_of_cells.
  rewrite for_first_None in H. specialize (H p.1). rewrite for_first_None in H.
  specialize (H ltac:(apply elem_of_range; lia) p.2 ltac:(apply elem_of_range; lia)).
  inv_bind H. exists a. split; [done|].
  destruct (Z.eqb_spec a (-1)); [discriminate | done].
Qed.

Lemma find_next_empty_cell_Ret (puzzle : grid) :
  wf_grid puzzle = true -> exists o, find_next_empty_cell puzzle = Ret o.
Proof.
  intros Hwf. apply for_first_Ret. intros r Hr%elem_of_range.
  apply for_first_Ret. intros c Hc%elem_of_range.
  rewrite (wf_get puzzle r c Hwf) by (apply elem_of_cells; simpl; lia).
  simpl. destruct (_ =? _); eauto.
Qed.

Lemma full_spec (puzzle : grid) :
  full puzzle = true <-> forall p, p ∈ cells -> cell puzzle p <> EMPTY.
Proof.
  unfold full. rewrite forallb_forall. setoid_rewrite <- list_elem_of_In.
  setoid_rewrite negb_true_iff. by setoid_rewrite Z.eqb_neq.
Qed.

Lemma find_next_empty_cell_full (puzzle : grid) :
  wf_grid puzzle = true ->
  (find_next_empty_cell puzzle = Ret None <-> full puzzle = true).
Proof.
  intros Hwf. rewrite full_spec. split.
  - intros H [r c] Hp. destruct (find_next_empty_cell_None _ H _ Hp) as (x & Hx & Hne).
    simpl in Hx. rewrite (wf_get _ _ _ Hwf Hp) in Hx. congruence.
  - intros H. apply for_first_None. intros r Hr%elem_of_range.
    apply for_first_None. intros c Hc%elem_of_range.
    assert ((r, c) ∈ cells) as Hp by (apply elem_of_cells; simpl; lia).
    rewrite (wf_get puzzle r c Hwf Hp). simpl.
    specialize (H _ Hp). apply Z.eqb_neq in H. unfold EMPTY in H. by rewrite H.
Qed.

(** ** is_valid_number *)

Lemma for_first_ext {A B : Type} (xs : list A) (body body' : A -> result (option B)) :
  (forall x, x ∈ xs -> body x = body' x) ->
  for_first xs body = for_first xs body'.
Proof.
  induction xs as [|x xs IH]; simpl; intros H; [done|].
  rewrite (H x) by left. rewrite IH; [done|]. intros y Hy. apply H. by right.
Qed.

Lemma for_first_hit {A : Type} (xs : list A) (P : A -> bool) :
  for_first xs (fun x => hit (P x)) = hit (existsb P xs).
Proof.
  induction xs as [|x xs IH]; simpl; [done|]. destruct (P x); simpl; [done | apply IH].
Qed.

Lemma existsb_lookup {A : Type} (f : A -> bool) (l : list A) :
  existsb f l = true <-> exists i x, l !! i = Some x /\ f x = true.
Proof.
  rewrite existsb_exists. setoid_rewrite <- list_elem_of_In. split.
  - intros (x & (i & Hi)%list_elem_of_lookup & Hx). eauto.
  - intros (i & x & Hi & Hx). exists x. split; [|done].
    apply list_elem_of_lookup. eauto.
Qed.

Lemma existsb_range (f : nat -> bool) (a n : nat) :
  existsb f (range a n) = true <-> exists i, (a <= i < a + n)%nat /\ f i = true.
Proof.
  rewrite existsb_exists. setoid_rewrite <- list_elem_of_In.
  by setoid_rewrite elem_of_range.
Qed.

Lemma box_range (i j : nat) :
  (i < 9)%nat -> (i / 3 * 3 <= j < i / 3 * 3 + 3)%nat -> (j < 9)%nat /\ (i / 3 = j / 3)%nat.
Proof.
  intros Hi Hj. do 9 (destruct i as [|i]; [cbn in Hj |- *; split; [lia|];
    do 9 (destruct j as [|j]; [cbn; lia|]); lia|]). lia.
Qed.

Lemma box_range_inv (i j : nat) :
  (i < 9)%nat -> (i / 3 = j / 3)%nat -> (i / 3 * 3 <= j < i / 3 * 3 + 3)%nat.
Proof.
  intros Hi Hj. rewrite Hj.
  pose proof (Nat.div_mod_eq j 3). pose proof (Nat.mod_upper_bound j 3). lia.
Qed.

Lemma is_valid_number_scans (puzzle : grid) (guess : Z) (row col : nat) :
  wf_grid puzzle = true -> (row, col) ∈ cells ->
  is_valid_number puzzle guess row col =
  Ret (negb (in_row puzzle guess row || in_col puzzle guess col
             || in_box puzzle guess row col)).
Proof.
  intros Hwf Hp. pose proof Hp as [Hr Hc]%elem_of_cells. simpl in Hr, Hc.
  pose proof Hwf as [Hlen Hrows]%wf_grid_spec.
  destruct (lookup_lt_is_Some_2 puzzle row) as [row_vals Hrow]; [lia|].
  assert (length row_vals = 9%nat) as Hl by (by eapply (Forall_lookup_1 _ _ _ _ Hrows)).
  unfold is_valid_number. rewrite (proj2 (index_Ret _ _ _) Hrow). cbn [bind].
  assert (contains guess row_vals = in_row puzzle guess row) as ->.
  { apply Bool.eq_iff_eq_true. unfold contains, in_row.
    rewrite existsb_lookup, existsb_range. split.
    - intros (i & x & Hi & Hx). exists i. pose proof (lookup_lt_Some _ _ _ Hi).
      split; [lia|]. unfold cell. simpl.
      rewrite (proj2 (get_Ret puzzle row i x)) by eauto. apply Z.eqb_eq in Hx. lia.
    - intros (i & Hi & Hx). destruct (lookup_lt_is_Some_2 row_vals i) as [x Hx']; [lia|].
      exists i, x. split; [done|]. unfold cell in Hx. simpl in Hx.
      rewrite (proj2 (get_Ret puzzle row i x)) in Hx by eauto.
      apply Z.eqb_eq in Hx. lia. }
  destruct (in_row puzzle guess row); [done|]. cbn [orb].
  rewrite (for_first_ext _ _ (fun i => hit (cell puzzle (i, col) =? guess))).
  2:{ intros i Hi%elem_of_range.
      by rewrite (wf_get puzzle i col Hwf) by (apply elem_of_cells; simpl; lia). }
  rewrite for_first_hit. fold (in_col puzzle guess col). cbn [orb].
  destruct (in_col puzzle guess col); [done|]. cbn [orb hit bind].
  rewrite (for_first_ext _ _ (fun r =>
    hit (existsb (fun c => cell puzzle (r, c) =? guess) (range (col / 3 * 3) 3)))).
  2:{ intros r Hr'%elem_of_range. rewrite <- for_first_hit. apply for_first_ext.
      intros c Hc'%elem_of_range.
      destruct (box_range row r Hr) as [? _]; [lia|].
      destruct (box_range col c Hc) as [? _]; [lia|].
      by rewrite (wf_get puzzle r c Hwf) by (apply elem_of_cells; simpl; lia). }
  rewrite for_first_hit. fold (in_box puzzle guess row col).
  by destruct (in_box puzzle guess row col).
Qed.

Lemma same_unit_spec (p q : nat * nat) :
  same_unit p q = true <->
  p.1 = q.1 \/ p.2 = q.2 \/ (p.1 / 3 = q.1 / 3 /\ p.2 / 3 = q.2 / 3)%nat.
Proof.
  unfold same_unit. rewrite !orb_true_iff, andb_true_iff, !Nat.eqb_eq. tauto.
Qed.

Lemma same_unit_sym (p q : nat * nat) : same_unit p q = same_unit q p.
Proof.
  apply Bool.eq_iff_eq_true. rewrite !same_unit_spec. intuition congruence.
Qed.

Lemma occurs_spec (puzzle : grid) (v : Z) (p : nat * nat) :
  occurs puzzle v p = true <->
  exists q, q ∈ cells /\ same_unit p q = true /\ cell puzzle q = v.
Proof.
  unfold occurs. rewrite existsb_exists. setoid_rewrite <- list_elem_of_In.
  setoid_rewrite andb_true_iff. by setoid_rewrite Z.eqb_eq.
Qed.

Lemma scans_occurs (puzzle : grid) (v : Z) (row col : nat) :
  (row, col) ∈ cells ->
  in_row puzzle v row || in_col puzzle v col || in_box puzzle v row col
  = occurs puzzle v (row, col).
Proof.
  intros [Hr Hc]%elem_of_cells. simpl in Hr, Hc. apply Bool.eq_iff_eq_true.
  rewrite !orb_true_iff, occurs_spec. unfold in_row, in_col, in_box.
  rewrite !existsb_range. setoid_rewrite existsb_range. setoid_rewrite Z.eqb_eq.
  split.
  - intros [[(c & Hc' & H)|(r & Hr' & H)]|(r & Hr' & c & Hc' & H)].
    + exists (row, c). rewrite elem_of_cells, same_unit_spec. simpl.
      split_and!; [lia | lia | by left | done].
    + exists (r, col). rewrite elem_of_cells, same_unit_spec. simpl.
      split_and!; [lia | lia | by right; left | done].
    + destruct (box_range row r Hr Hr'), (box_range col c Hc Hc').
      exists (r, c). rewrite elem_of_cells, same_unit_spec. simpl.
      split_and!; [lia | lia | by right; right | done].
  - intros ([r c] & [Hr' Hc']%elem_of_cells & Hu%same_unit_spec & H). simpl in *.
    destruct Hu as [<-|[<-|[Hbr Hbc]]].
    + left; left. exists c. split; [lia | done].
    + left; right. exists r. split; [lia | done].
    + right. exists r. split; [by apply box_range_inv|].
      exists c. split; [by apply box_range_inv | done].
Qed.

Lemma is_valid_number_occurs (puzzle : grid) (guess : Z) (row col : nat) :
  wf_grid puzzle = true -> (row, col) ∈ cells ->
  is_valid_number puzzle guess row col = Ret (negb (occurs puzzle guess (row, col))).
Proof.
  intros Hwf Hp. rewrite is_valid_number_scans by done. by rewrite scans_occurs.
Qed.

(** ** Runs are chains of validated assignments *)

Lemma chain_app (g g1 g2 : grid) (tr1 tr2 : list write) :
  chain g tr1 g1 -> chain g1 tr2 g2 -> chain g (tr1 ++ tr2) g2.
Proof.
  revert g. induction tr1 as [|w tr1 IH]; simpl; intros g.
  - by intros ->.
  - intros [-> H1] H2. split; [done | by apply IH].
Qed.

Lemma write_ok_step (g0 : grid) (w : write) :
  write_ok g0 w -> (w_row w, w_col w) ∈ cells /\ step (w_before w) (w_after w).
Proof.
  intros [? Hc ? ? ? ?]. apply find_next_empty_cell_Some in Hc as [Hc _].
  split; [done|]. by exists (w_row w), (w_col w), (w_val w).
Qed.

Lemma chain_reach (g0 g g' : grid) (tr : list write) :
  chain g tr g' -> Forall (write_ok g0) tr -> reach g g'.
Proof.
  revert g. induction tr as [|w tr IH]; simpl; intros g.
  - intros -> _. apply rtc_refl.
  - intros [<- H] [Hw Htr]%Forall_cons. eapply rtc_l; [|by apply IH].
    by apply write_ok_step in Hw as [_ ?].
Qed.

Lemma write_ok_weaken (g0 g1 : grid) (w : write) :
  reach g0 g1 -> write_ok g1 w -> write_ok g0 w.
Proof. intros H [? ? ? ? ? ?]. split; try done. by etrans. Qed.

Section LoopSound.

Variable rec : grid -> result outcome.
Variable entry : grid.
Variables row col : nat.
Hypothesis rec_sound : forall g o, rec g = Ret o -> sound g o.
Hypothesis entry_cell : find_next_empty_cell entry = Ret (Some (row, col)).

Lemma try_guesses_sound (todo : list Z) (puzzle : grid) (o : outcome) :
  (forall v, v ∈ todo -> v ∈ guesses) ->
  reach entry puzzle ->
  try_guesses rec entry row col todo puzzle = Ret o ->
  chain puzzle (trace o) (final o) /\
  Forall (write_ok entry) (trace o) /\
  (returned o = PyTrue /\ find_next_empty_cell (final o) = Ret None
   \/ returned o = PyNone).
Proof.
  revert puzzle o. induction todo as [|guess todo IH]; intros puzzle o Hin Hreach H.
  - injection H as <-. simpl. split_and!; [done | constructor | by right].
  - simpl in H. inv_bind H. destruct a; [|apply IH; [|done..]].
    2:{ intros v Hv. apply Hin. by right. }
    rename Ha into Hvalid. inv_bind H. rename a into puzzle1, Ha into Hset.
    inv_bind H. rename a into o1.
    destruct (rec_sound _ _ Ha) as (Hchain1 & Hok1 & Hret1).
    pose proof (find_next_empty_cell_Some _ _ _ entry_cell) as [Hcell _].
    assert (guess ∈ guesses) as Hguess by (apply Hin; left).
    assert (step puzzle puzzle1) as Hstep by (by exists row, col, guess).
    assert (reach entry puzzle1) as Hreach1 by (eapply rtc_r; done).
    assert (write_ok entry (Write entry puzzle row col guess puzzle1)) as Hw
      by (split; simpl; try done).
    assert (Forall (write_ok entry) (trace o1)) as Hok1'
      by (eapply Forall_impl; [done | intros w; by apply write_ok_weaken]).
    destruct (truthy (returned o1)) eqn:Htruthy.
    + injection H as <-. simpl. split_and!; [done | done | by constructor |].
      left. split; [done|]. destruct Hret1 as [[_ ?]|Hn]; [done|].
      rewrite Hn in Htruthy. discriminate.
    + inv_bind H. rename a into o2. injection H as <-. simpl.
      destruct (IH (final o1) o2) as (Hchain2 & Hok2 & Hret2); [| |done|].
      { intros v Hv. apply Hin. by right. }
      { etrans; [done|]. by eapply chain_reach. }
      split_and!; [done | by eapply chain_app | | done].
      constructor; [done|]. by apply Forall_app.
Qed.

End LoopSound.

Lemma solve_fuel_S (n : nat) (puzzle : grid) :
  solve_fuel (S n) puzzle =
  let* found := find_next_empty_cell puzzle in
  match found with
  | None => Ret (Outcome PyTrue puzzle [])
  | Some (row, col) => try_guesses (solve_fuel n) puzzle row col guesses puzzle
  end.
Proof. reflexivity. Qed.

Lemma solve_fuel_sound (n : nat) (puzzle : grid) (o : outcome) :
  solve_fuel n puzzle = Ret o -> sound puzzle o.
Proof.
  revert puzzle o. induction n as [|n IH]; intros puzzle o H; [discriminate|].
  rewrite solve_fuel_S in H. inv_bind H. destruct a as [[row col]|].
  - eapply try_guesses_sound in H; [done | apply IH | done | done | apply rtc_refl].
  - injection H as <-. split_and!; simpl; [done | constructor | by left].
Qed.

(** ** More room on the stack changes nothing *)

Lemma try_guesses_mono (rec rec' : grid -> result outcome) entry row col todo puzzle o :
  (forall g o, rec g = Ret o -> rec' g = Ret o) ->
  try_guesses rec entry row col todo puzzle = Ret o ->
  try_guesses rec' entry row col todo puzzle = Ret o.
Proof.
  intros Hrec. revert puzzle o. induction todo as [|guess todo IH]; intros puzzle o H;
    [done|].
  simpl in *. inv_bind H. rewrite Ha. cbn [bind]. destruct a; [|by apply IH].
  inv_bind H. rewrite Ha0. cbn [bind]. inv_bind H. rewrite (Hrec _ _ Ha1). cbn [bind].
  destruct (truthy (returned a0)); [done|].
  inv_bind H. by rewrite (IH _ _ Ha2).
Qed.

Lemma solve_fuel_mono (n m : nat) (puzzle : grid) (o : outcome) :
  (n <= m)%nat -> solve_fuel n puzzle = Ret o -> solve_fuel m puzzle = Ret o.
Proof.
  revert m puzzle o. induction n as [|n IH]; intros m puzzle o Hle H; [discriminate|].
  destruct m as [|m]; [lia|]. rewrite solve_fuel_S in *. inv_bind H. rewrite Ha.
  cbn [bind].
  destruct a as [[row col]|]; [|done].
  eapply try_guesses_mono; [|done]. intros g o'. apply IH. lia.
Qed.

(** ** What an assignment preserves *)

Lemma elem_of_guesses (v : Z) : v ∈ guesses <-> 1 <= v <= 9.
Proof.
  change guesses with [1; 2; 3; 4; 5; 6; 7; 8; 9].
  rewrite !elem_of_cons, elem_of_nil. lia.
Qed.

Lemma step_wf (g g' : grid) : step g g' -> wf_grid g = true -> wf_grid g' = true.
Proof. intros (row & col & guess & _ & _ & _ & Hset). by eapply set_cell_wf. Qed.

Lemma reach_wf (g g' : grid) : reach g g' -> wf_grid g = true -> wf_grid g' = true.
Proof. induction 1 as [|g g1 g2 Hstep _ IH]; [done|]. intros. by eapply IH, step_wf. Qed.

(** The cell-level reading of a step on a 9x9 puzzle. *)
Lemma step_cells (g g' : grid) :
  step g g' -> wf_grid g = true ->
  exists p v, p ∈ cells /\ 1 <= v <= 9 /\ occurs g v p = false /\
    cell g' p = v /\ forall q, q <> p -> cell g' q = cell g q.
Proof.
  intros (row & col & guess & Hp & Hg%elem_of_guesses & Hvalid & Hset) Hwf.
  rewrite is_valid_number_occurs in Hvalid by done.
  injection Hvalid as Hvalid. apply negb_true_iff in Hvalid.
  exists (row, col), guess. repeat split; try done; try lia.
  - by eapply cell_set_eq.
  - intros q Hq. by eapply cell_set_ne.
Qed.

Lemma in_domain_spec (puzzle : grid) :
  in_domain puzzle = true <->
  Forall (Forall (fun x => x = EMPTY \/ 1 <= x <= 9)) puzzle.
Proof.
  unfold in_domain. rewrite forallb_forall, List.Forall_forall.
  split; intros H row_vals Hrow; specialize (H row_vals Hrow).
  - rewrite forallb_forall in H. apply List.Forall_forall. intros x Hx.
    specialize (H x Hx). rewrite orb_true_iff, andb_true_iff, Z.eqb_eq, !Z.leb_le in H.
    tauto.
  - rewrite List.Forall_forall in H. apply forallb_forall. intros x Hx.
    specialize (H x Hx). rewrite orb_true_iff, andb_true_iff, Z.eqb_eq, !Z.leb_le.
    tauto.
Qed.

Lemma step_in_domain (g g' : grid) :
  step g g' -> in_domain g = true -> in_domain g' = true.
Proof.
  intros (row & col & guess & _ & Hg%elem_of_guesses & _ & Hset) Hdom.
  apply set_cell_Ret in Hset as (row_vals & Hr & Hc & ->).
  apply in_domain_spec in Hdom. apply in_domain_spec.
  apply Forall_insert; [done|]. apply Forall_insert; [|by right].
  by eapply (Forall_lookup_1 _ _ _ _ Hdom).
Qed.

Lemma reach_in_domain (g g' : grid) :
  reach g g' -> in_domain g = true -> in_domain g' = true.
Proof.
  induction 1 as [|g g1 g2 Hstep _ IH]; [done|]. intros. by eapply IH, step_in_domain.
Qed.

Lemma step_fills (g g' : grid) : step g g' -> wf_grid g = true -> fills g g'.
Proof.
  intros Hstep Hwf. destruct (step_cells _ _ Hstep Hwf) as (p & v & _ & Hv & _ & Hp & Hq).
  intros q Hempty. destruct (decide (q = p)) as [->|Hne].
  - unfold EMPTY in *. lia.
  - by rewrite <- Hq.
Qed.

Lemma reach_fills (g g' : grid) : reach g g' -> wf_grid g = true -> fills g g'.
Proof.
  induction 1 as [|g g1 g2 Hstep _ IH]; [by intros _ p|]. intros Hwf p Hp.
  apply (step_fills _ _ Hstep Hwf), IH; [by eapply step_wf | done].
Qed.

Lemma filter_length_le {A : Type} (P Q : A -> Prop)
    `{HP : !forall x, Decision (P x)} `{HQ : !forall x, Decision (Q x)} (l : list A) :
  (forall x, x ∈ l -> P x -> Q x) ->
  (length (filter P l) <= length (filter Q l))%nat.
Proof.
  induction l as [|x l IH]; intros Himp; [done|].
  rewrite !filter_cons.
  assert (length (filter P l) <= length (filter Q l))%nat
    by (apply IH; intros y Hy; apply Himp; by right).
  assert (P x -> Q x) by (apply Himp; left).
  repeat case_decide; simpl; try lia. tauto.
Qed.

Lemma filter_length_lt {A : Type} (P Q : A -> Prop)
    `{HP : !forall x, Decision (P x)} `{HQ : !forall x, Decision (Q x)}
    (l : list A) (a : A) :
  (forall x, x ∈ l -> P x -> Q x) -> a ∈ l -> Q a -> ~ P a ->
  (length (filter P l) < length (filter Q l))%nat.
Proof.
  induction l as [|x l IH]; intros Himp Ha HQa HPa; [by apply elem_of_nil in Ha|].
  rewrite !filter_cons. assert (P x -> Q x) by (apply Himp; left).
  assert (forall y, y ∈ l -> P y -> Q y) as Hl by (intros y Hy; apply Himp; by right).
  pose proof (filter_length_le P Q l Hl).
  apply elem_of_cons in Ha as [->|Ha].
  - repeat case_decide; simpl; try lia; tauto.
  - specialize (IH Hl Ha HQa HPa). repeat case_decide; simpl; try lia. tauto.
Qed.

Lemma fills_count_empty (g g' : grid) :
  fills g g' -> (count_empty g' <= count_empty g)%nat.
Proof. intros H. apply filter_length_le. intros p _. apply H. Qed.

Lemma fills_count_empty_lt (g g' : grid) (p : nat * nat) :
  fills g g' -> p ∈ cells -> cell g p = EMPTY -> cell g' p <> EMPTY ->
  (count_empty g' < count_empty g)%nat.
Proof. intros H Hp He Hne. apply (filter_length_lt _ _ _ p); try done. intros q _. apply H. Qed.

Lemma count_empty_bound (g : grid) : (count_empty g <= 81)%nat.
Proof. unfold count_empty. by rewrite length_filter. Qed.

(** The cell an activation works on is [EMPTY] when the activation starts,
    and every assignment of the activation leaves fewer [EMPTY] cells than
    there were at its start. *)
Lemma write_fills (entry before after : grid) (row col : nat) :
  wf_grid entry = true ->
  find_next_empty_cell entry = Ret (Some (row, col)) ->
  reach entry before -> step before after ->
  cell after (row, col) <> EMPTY ->
  (count_empty after < count_empty entry)%nat.
Proof.
  intros Hwf [Hp Hget]%find_next_empty_cell_Some Hreach Hstep Hne.
  apply (fills_count_empty_lt _ _ (row, col)); try done.
  - apply reach_fills; [|done]. by eapply rtc_r.
  - rewrite wf_get in Hget by done. by injection Hget.
Qed.

Lemma write_ok_count (g0 : grid) (w : write) :
  wf_grid g0 = true -> write_ok g0 w ->
  (count_empty (w_after w) < count_empty (w_entry w))%nat.
Proof.
  intros Hwf Hw. pose proof (write_ok_step _ _ Hw) as [Hp Hstep].
  destruct Hw as [He Hc Hb Hv _ Hset].
  eapply write_fills; try done; [by eapply reach_wf|].
  rewrite (cell_set_eq _ _ _ _ _ Hset). apply elem_of_guesses in Hv. unfold EMPTY. lia.
Qed.

(** ** The search returns *)

Section LoopTotal.

Variable rec : grid -> result outcome.
Variable entry : grid.
Variables row col : nat.
Variable n : nat.
Hypothesis rec_sound : forall g o, rec g = Ret o -> sound g o.
Hypothesis rec_total :
  forall g, wf_grid g = true -> (count_empty g < n)%nat -> exists o, rec g = Ret o.
Hypothesis entry_wf : wf_grid entry = true.
Hypothesis entry_cell : find_next_empty_cell entry = Ret (Some (row, col)).
Hypothesis entry_count : (count_empty entry <= n)%nat.

Lemma try_guesses_total (todo : list Z) (puzzle : grid) :
  (forall v, v ∈ todo -> v ∈ guesses) ->
  reach entry puzzle ->
  exists o, try_guesses rec entry row col todo puzzle = Ret o.
Proof.
  revert puzzle. induction todo as [|guess todo IH]; intros puzzle Hin Hreach;
    [simpl; eauto|].
  assert (forall v, v ∈ todo -> v ∈ guesses) as Hin' by (intros v Hv; apply Hin; by right).
  pose proof (find_next_empty_cell_Some _ _ _ entry_cell) as [Hcell _].
  pose proof (reach_wf _ _ Hreach entry_wf) as Hwf.
  cbn [try_guesses].
  destruct (is_valid_number puzzle guess row col) as [[|]| |] eqn:Hvalid;
    cbn [bind]; [|by apply IH|by rewrite is_valid_number_occurs in Hvalid..].
  destruct (wf_set_cell puzzle row col guess Hwf Hcell) as [puzzle1 Hset].
  rewrite Hset. cbn [bind].
  assert (guess ∈ guesses) as Hguess by (apply Hin; left).
  assert (step puzzle puzzle1) as Hstep by (by exists row, col, guess).
  destruct (rec_total puzzle1) as [o1 Ho1].
  { by eapply step_wf. }
  { eapply Nat.lt_le_trans; [|done]. eapply write_fills; try done.
    rewrite (cell_set_eq _ _ _ _ _ Hset). apply elem_of_guesses in Hguess.
    unfold EMPTY. lia. }
  rewrite Ho1. cbn [bind]. destruct (truthy (returned o1)); [eauto|].
  destruct (rec_sound _ _ Ho1) as (Hchain & Hok & _).
  destruct (IH (final o1)) as [o2 Ho2]; [done| |].
  { etrans; [by eapply rtc_r|]. by eapply chain_reach. }
  rewrite Ho2. cbn [bind]. eauto.
Qed.

End LoopTotal.

Lemma solve_fuel_total (n : nat) (puzzle : grid) :
  wf_grid puzzle = true -> (count_empty puzzle < n)%nat ->
  exists o, solve_fuel n puzzle = Ret o.
Proof.
  revert puzzle. induction n as [|n IH]; intros puzzle Hwf Hn; [lia|].
  rewrite solve_fuel_S. destruct (find_next_empty_cell_Ret _ Hwf) as [found Hfound].
  rewrite Hfound. cbn [bind]. destruct found as [[row col]|]; [|eauto].
  eapply try_guesses_total; try done; [intros g o; apply solve_fuel_sound | lia].
Qed.

Lemma solve_sudoku_fuel (puzzle : grid) :
  wf_grid puzzle = true ->
  exists o, solve_fuel (S (count_empty puzzle)) puzzle = Ret o /\
            solve_sudoku puzzle = Ret o.
Proof.
  intros Hwf. destruct (solve_fuel_total (S (count_empty puzzle)) puzzle) as [o Ho];
    [done | lia |].
  exists o. split; [done|]. unfold solve_sudoku.
  eapply solve_fuel_mono; [|done].
  pose proof (count_empty_bound puzzle). unfold recursion_limit. lia.
Qed.

Lemma solve_sudoku_sound (puzzle : grid) (o : outcome) :
  solve_sudoku puzzle = Ret o -> sound puzzle o.
Proof. apply solve_fuel_sound. Qed.

(** ** Consistency *)

Lemma same_cell_spec (p q : nat * nat) : same_cell p q = true <-> p = q.
Proof.
  unfold same_cell. rewrite andb_true_iff, !Nat.eqb_eq. destruct p, q. simpl.
  split; [by intros [-> ->] | by intros [= -> ->]].
Qed.

Lemma occurs_elsewhere_spec (puzzle : grid) (v : Z) (p : nat * nat) :
  occurs_elsewhere puzzle v p = true <->
  exists q, q ∈ cells /\ same_unit p q = true /\ q <> p /\ cell puzzle q = v.
Proof.
  unfold occurs_elsewhere. rewrite existsb_exists. setoid_rewrite <- list_elem_of_In.
  split; intros (q & Hq & H); exists q; (split; [done|]).
  - rewrite !andb_true_iff, negb_true_iff, Z.eqb_eq in H.
    destruct H as [[Hu Hc] Hv]. split_and!; [done | | done].
    intros ->. by rewrite (proj2 (same_cell_spec p p)) in Hc.
  - destruct H as (Hu & Hne & Hv). rewrite !andb_true_iff, negb_true_iff, Z.eqb_eq.
    split_and!; [done | | done]. apply not_true_is_false.
    rewrite same_cell_spec. congruence.
Qed.

Lemma consistent_spec (puzzle : grid) :
  consistent puzzle = true <->
  forall p q, p ∈ cells -> q ∈ cells -> same_unit p q = true -> q <> p ->
    cell puzzle p <> EMPTY -> cell puzzle q <> cell puzzle p.
Proof.
  unfold consistent. rewrite forallb_forall. setoid_rewrite <- list_elem_of_In. split.
  - intros H p q Hp Hq Hu Hne Hv Heq. specialize (H p Hp).
    apply orb_true_iff in H as [H%Z.eqb_eq|H%negb_true_iff]; [done|].
    apply not_true_iff_false in H. apply H, occurs_elsewhere_spec. by exists q.
  - intros H p Hp. destruct (Z.eqb_spec (cell puzzle p) EMPTY) as [|Hv]; [done|].
    simpl. apply negb_true_iff, not_true_iff_false.
    intros (q & Hq & Hu & Hne & Heq)%occurs_elsewhere_spec. by apply (H p q).
Qed.

Lemma step_consistent (g g' : grid) :
  step g g' -> wf_grid g = true -> consistent g = true -> consistent g' = true.
Proof.
  intros Hstep Hwf Hcons.
  destruct (step_cells _ _ Hstep Hwf) as (p0 & v & Hp0 & Hv & Hocc & Hnew & Hold).
  apply not_true_iff_false in Hocc. rewrite occurs_spec in Hocc.
  rewrite consistent_spec in Hcons. apply consistent_spec.
  intros p q Hp Hq Hu Hne Hfilled.
  destruct (decide (p = p0)) as [->|Hpp], (decide (q = p0)) as [->|Hqp].
  - done.
  - rewrite Hnew, (Hold q) by done. intros Heq. apply Hocc. by exists q.
  - rewrite Hnew, (Hold p) by done. intros Heq. apply Hocc. exists p.
    by rewrite same_unit_sym.
  - rewrite (Hold p), (Hold q) in * by done. by apply Hcons.
Qed.

Lemma reach_consistent (g g' : grid) :
  reach g g' -> wf_grid g = true -> consistent g = true -> consistent g' = true.
Proof.
  induction 1 as [|g g1 g2 Hstep _ IH]; [done|]. intros.
  apply IH; [by eapply step_wf | by eapply step_consistent].
Qed.

(** Every state a run goes through is reached by validated assignments. *)
Lemma chain_Forall_reach (g0 g g' : grid) (tr : list write) :
  chain g tr g' -> Forall (write_ok g0) tr -> reach g0 g ->
  Forall (fun w => reach g0 (w_after w)) tr.
Proof.
  revert g. induction tr as [|w tr IH]; simpl; intros g; [constructor|].
  intros [<- Hchain] [Hw Htr]%Forall_cons Hreach.
  assert (reach g0 (w_after w)) by (eapply rtc_r; [done | by eapply write_ok_step]).
  constructor; [done | by eapply IH].
Qed.

(** ** A full consistent puzzle is solved *)

Lemma units_good :
  Forall (fun u => length u = 9%nat /\ NoDup u /\ Forall (fun p => p ∈ cells) u /\
                   Forall (fun p => Forall (fun q => same_unit p q = true) u) u) units.
Proof. apply (bool_decide_unpack _). vm_compute. exact I. Qed.

Lemma in_domain_cell (puzzle : grid) (p : nat * nat) :
  wf_grid puzzle = true -> in_domain puzzle = true -> p ∈ cells ->
  cell puzzle p = EMPTY \/ 1 <= cell puzzle p <= 9.
Proof.
  intros Hwf Hdom%in_domain_spec Hp. destruct p as [r c].
  pose proof (wf_get _ _ _ Hwf Hp) as (row_vals & Hr & Hc)%get_Ret.
  pose proof (Forall_lookup_1 _ _ _ _ Hdom Hr) as Hrow.
  apply (Forall_lookup_1 _ _ _ _ Hrow Hc).
Qed.

Lemma occurrences_guesses (v : Z) :
  1 <= v <= 9 -> length (filter (fun x => x = v) guesses) = 1%nat.
Proof.
  intros Hv.
  assert (v = 1 \/ v = 2 \/ v = 3 \/ v = 4 \/ v = 5 \/ v = 6 \/ v = 7 \/ v = 8 \/ v = 9)
    as H by lia.
  repeat (destruct H as [->|H]; [reflexivity|]). by subst.
Qed.

Lemma solved_spec (puzzle : grid) :
  solved puzzle = true <->
  forall u v, u ∈ units -> 1 <= v <= 9 -> occurrences puzzle u v = 1%nat.
Proof.
  unfold solved. rewrite forallb_forall. setoid_rewrite forallb_forall.
  setoid_rewrite <- list_elem_of_In. setoid_rewrite elem_of_guesses.
  setoid_rewrite Nat.eqb_eq. split; intros H u; [intros v Hu|intros Hu v]; by apply H.
Qed.

Lemma filter_fmap_length {A B : Type} (f : A -> B) (P : B -> Prop)
    `{HP : !forall y, Decision (P y)} (l : list A) :
  length (filter P (f <$> l)) = length (filter (fun x => P (f x)) l).
Proof.
  induction l as [|x l IH]; [done|]. rewrite fmap_cons, !filter_cons.
  case_decide; simpl; by rewrite IH.
Qed.

Lemma full_consistent_solved (puzzle : grid) :
  wf_grid puzzle = true -> in_domain puzzle = true -> consistent puzzle = true ->
  full puzzle = true -> solved puzzle = true.
Proof.
  intros Hwf Hdom Hcons Hfull. apply solved_spec. intros u v Hu Hv.
  rewrite consistent_spec in Hcons. rewrite full_spec in Hfull.
  pose proof units_good as Hgood. rewrite Forall_forall in Hgood.
  destruct (Hgood u Hu) as (Hlen & Hnodup & Hcells & Hpeers).
  rewrite Forall_forall in Hcells. rewrite Forall_forall in Hpeers.
  assert (cell puzzle <$> u ≡ₚ guesses) as Hperm.
  { apply submseteq_length_Permutation; [|by rewrite length_fmap, Hlen].
    apply NoDup_submseteq.
    - apply NoDup_fmap_2_strong; [|done]. intros p q Hp Hq Heq.
      destruct (decide (q = p)) as [|Hne]; [done|]. exfalso.
      apply (Hcons p q); auto.
      specialize (Hpeers p Hp). rewrite Forall_forall in Hpeers. auto.
    - intros x (p & -> & Hp)%list_elem_of_fmap. apply elem_of_guesses.
      destruct (in_domain_cell puzzle p Hwf Hdom); [auto| |done].
      exfalso. by apply (Hfull p); auto. }
  unfold occurrences.
  transitivity (length (filter (fun x => x = v) (cell puzzle <$> u))).
  - by rewrite filter_fmap_length.
  - rewrite Hperm. by apply occurrences_guesses.
Qed.

(** * The claims *)

(** C1. On a 9x9 puzzle with cells in 1..9 or EMPTY and no value twice in a
    unit, [solve_sudoku] returns, and when it returns [True] the puzzle it
    leaves has no EMPTY cell and every row, column and aligned 3x3 box holds
    each of 1..9 exactly once. *)
Theorem solve_sudoku_valid (puzzle : grid) :
  wf_grid puzzle = true -> in_domain puzzle = true -> consistent puzzle = true ->
  exists o, solve_sudoku puzzle = Ret o /\
    (returned o = PyTrue ->
     (forall p, p ∈ cells -> cell (final o) p <> EMPTY) /\
     (forall u v, u ∈ units -> 1 <= v <= 9 -> occurrences (final o) u v = 1%nat)).
Proof.
  intros Hwf Hdom Hcons. destruct (solve_sudoku_fuel puzzle Hwf) as (o & _ & Ho).
  exists o. split; [done|]. intros Htrue.
  destruct (solve_sudoku_sound _ _ Ho) as (Hchain & Hok & Hret).
  destruct Hret as [[_ Hnone]|Hn]; [|congruence].
  pose proof (chain_reach _ _ _ _ Hchain Hok) as Hreach.
  pose proof (reach_wf _ _ Hreach Hwf) as Hwf'.
  apply find_next_empty_cell_full in Hnone; [|done].
  split; [by apply full_spec|]. apply solved_spec, full_consistent_solved; try done.
  - by eapply reach_in_domain.
  - by eapply reach_consistent.
Qed.

Lemma solve_sudoku_valid_witness :
  exists o, solve_sudoku holes_grid = Ret o /\
    (returned o = PyTrue ->
     (forall p, p ∈ cells -> cell (final o) p <> EMPTY) /\
     (forall u v, u ∈ units -> 1 <= v <= 9 -> occurrences (final o) u v = 1%nat)).
Proof. apply solve_sudoku_valid; vm_compute; reflexivity. Defined.

Example holes_grid_solved :
  exists o, solve_sudoku holes_grid = Ret o /\ returned o = PyTrue /\
            final o = solved_grid /\ length (trace o) = 9%nat.
Proof. eexists. split; [vm_compute; reflexivity|]. by vm_compute. Qed.

(** [blocked_grid] has no solution: no 9x9 puzzle without EMPTY cell, with
    cells in 1..9 and no value twice in a unit, keeps its clues. *)
Lemma blocked_grid_unsolvable (g : grid) :
  wf_grid g = true -> in_domain g = true -> consistent g = true -> full g = true ->
  ~ (forall p, p ∈ cells -> cell blocked_grid p <> EMPTY ->
               cell g p = cell blocked_grid p).
Proof.
  intros Hwf Hdom Hcons Hfull Hkeep.
  rewrite consistent_spec in Hcons. rewrite full_spec in Hfull.
  assert (forall q, q ∈ cells -> same_unit (0, 1)%nat q = true -> q <> (0, 1)%nat ->
                    cell g q <> cell g (0, 1)%nat) as Hne.
  { intros q Hq Hu Hqp. apply Hcons; try done; [|apply Hfull]; apply elem_of_cells; simpl; lia. }
  assert (forall q, q ∈ cells -> same_unit (0, 1)%nat q = true -> q <> (0, 1)%nat ->
                    cell blocked_grid q <> EMPTY ->
                    cell blocked_grid q <> cell g (0, 1)%nat) as Hclue.
  { intros q Hq Hu Hqp Hc. rewrite <- Hkeep by done. by apply Hne. }
  assert ((0, 1)%nat ∈ cells) as H01 by (apply elem_of_cells; simpl; lia).
  destruct (in_domain_cell g (0, 1)%nat Hwf Hdom H01) as [He|Hv]; [by apply Hfull in He|].
  pose proof (Hclue (0, 2)%nat ltac:(apply elem_of_cells; simpl; lia) eq_refl ltac:(done) ltac:(done)).
  pose proof (Hclue (0, 3)%nat ltac:(apply elem_of_cells; simpl; lia) eq_refl ltac:(done) ltac:(done)).
  pose proof (Hclue (0, 4)%nat ltac:(apply elem_of_cells; simpl; lia) eq_refl ltac:(done) ltac:(done)).
  pose proof (Hclue (0, 5)%nat ltac:(apply elem_of_cells; simpl; lia) eq_refl ltac:(done) ltac:(done)).
  pose proof (Hclue (0, 6)%nat ltac:(apply elem_of_cells; simpl; lia) eq_refl ltac:(done) ltac:(done)).
  pose proof (Hclue (0, 7)%nat ltac:(apply elem_of_cells; simpl; lia) eq_refl ltac:(done) ltac:(done)).
  pose proof (Hclue (0, 8)%nat ltac:(apply elem_of_cells; simpl; lia) eq_refl ltac:(done) ltac:(done)).
  pose proof (Hclue (3, 1)%nat ltac:(apply elem_of_cells; simpl; lia) eq_refl ltac:(done) ltac:(done)).
  pose proof (Hclue (4, 1)%nat ltac:(apply elem_of_cells; simpl; lia) eq_refl ltac:(done) ltac:(done)).
  change (cell blocked_grid (0, 2)%nat) with 3 in *.
  change (cell blocked_grid (0, 3)%nat) with 4 in *.
  change (cell blocked_grid (0, 4)%nat) with 5 in *.
  change (cell blocked_grid (0, 5)%nat) with 6 in *.
  change (cell blocked_grid (0, 6)%nat) with 7 in *.
  change (cell blocked_grid (0, 7)%nat) with 8 in *.
  change (cell blocked_grid (0, 8)%nat) with 9 in *.
  change (cell blocked_grid (3, 1)%nat) with 1 in *.
  change (cell blocked_grid (4, 1)%nat) with 2 in *.
  lia.
Qed.

(** C2. On the unsolvable [blocked_grid] the call fails and leaves the
    puzzle changed: the first cell, EMPTY in the input, holds the last
    candidate that was tried there.  Nothing resets a cell after a
    recursive call that failed. *)
Theorem failed_search_leaves_guess :
  exists o, solve_sudoku blocked_grid = Ret o /\
    truthy (returned o) = false /\
    cell blocked_grid (0, 0)%nat = EMPTY /\
    cell (final o) (0, 0)%nat = 2 /\
    map (fun w => (w_row w, w_col w, w_val w, cell (w_after w) (0, 0)%nat)) (trace o)
    = [(0%nat, 0%nat, 1, 1); (0%nat, 0%nat, 2, 2)] /\
    final o <> blocked_grid.
Proof.
  eexists. split; [vm_compute; reflexivity|]. cbn [returned final trace].
  split_and!; try (vm_compute; reflexivity). intros H. discriminate H.
Qed.

(** C3. On [blocked_grid], where every candidate of the first cell fails,
    the call returns [None], which is not a boolean. *)
Theorem exhausted_search_returns_None :
  exists o, solve_sudoku blocked_grid = Ret o /\
    returned o = PyNone /\ is_bool (returned o) = false.
Proof. eexists. split; [vm_compute; reflexivity|]. by vm_compute. Qed.

(** X15. Whatever the puzzle, [False] is never returned: a call that returns
    gives [True] or [None]. *)
Lemma solve_sudoku_never_False (puzzle : grid) (o : outcome) :
  solve_sudoku puzzle = Ret o -> returned o = PyTrue \/ returned o = PyNone.
Proof. intros (_ & _ & [[? _]|?])%solve_sudoku_sound; auto. Qed.

(** C4, as stated, fails: with 5 in the target cell and nowhere else, the
    check of 5 at that cell answers [False]. *)
Lemma is_valid_number_reads_target :
  wf_grid clue_grid = true /\
  ~ (is_valid_number clue_grid 5 0 0 = Ret true <->
     occurs_elsewhere clue_grid 5 (0, 0)%nat = false).
Proof. split; [reflexivity|]. intros [_ H]. specialize (H eq_refl). discriminate H. Qed.

Lemma occurs_split (puzzle : grid) (v : Z) (p : nat * nat) :
  p ∈ cells ->
  occurs puzzle v p = (cell puzzle p =? v) || occurs_elsewhere puzzle v p.
Proof.
  intros Hp. apply Bool.eq_iff_eq_true.
  rewrite orb_true_iff, occurs_spec, occurs_elsewhere_spec, Z.eqb_eq. split.
  - intros (q & Hq & Hu & Hv). destruct (decide (q = p)) as [->|Hne]; [by left|].
    right. by exists q.
  - intros [Hv|(q & Hq & Hu & _ & Hv)]; [|by exists q].
    exists p. split_and!; [done | | done]. apply same_unit_spec. by left.
Qed.

(** C4, amended. On a 9x9 puzzle and a cell of the board, [is_valid_number]
    returns a boolean, and it returns [True] exactly when the value occurs
    at no cell of the row, the column and the aligned box of the target, the
    target cell included: the target must not hold the value, and no other
    cell of its units may. *)
Theorem is_valid_number_spec (puzzle : grid) (guess : Z) (row col : nat) :
  wf_grid puzzle = true -> (row < 9)%nat -> (col < 9)%nat ->
  (exists b, is_valid_number puzzle guess row col = Ret b) /\
  (is_valid_number puzzle guess row col = Ret true <->
   cell puzzle (row, col) <> guess /\
   occurs_elsewhere puzzle guess (row, col) = false).
Proof.
  intros Hwf Hr Hc. assert ((row, col) ∈ cells) as Hp by (by apply elem_of_cells).
  rewrite is_valid_number_occurs, occurs_split by done. split; [eauto|].
  rewrite <- Z.eqb_neq. split.
  - intros [= H]. by apply negb_true_iff, orb_false_iff in H.
  - intros [-> ->]. done.
Qed.

Lemma is_valid_number_spec_witness :
  (exists b, is_valid_number clue_grid 5 0 0 = Ret b) /\
  (is_valid_number clue_grid 5 0 0 = Ret true <->
   cell clue_grid (0, 0)%nat <> 5 /\
   occurs_elsewhere clue_grid 5 (0, 0)%nat = false).
Proof. apply is_valid_number_spec; [reflexivity | lia | lia]. Defined.

(** C5. On the puzzle without clues the call returns [None] and leaves a
    puzzle that still has EMPTY cells, hence no solution of it. *)
Theorem empty_grid_not_solved :
  exists o, solve_sudoku empty_grid = Ret o /\
    returned o = PyNone /\ count_empty (final o) = 33%nat /\
    full (final o) = false /\ solved (final o) = false.
Proof. eexists. split; [vm_compute; reflexivity|]. by vm_compute. Qed.

(** The puzzle without clues does have solutions, [solved_grid] for one. *)
Example solved_grid_solved :
  wf_grid solved_grid = true /\ full solved_grid = true /\ solved solved_grid = true.
Proof. by vm_compute. Qed.

(** The cell an assignment targets was EMPTY when the run started. *)
Lemma write_ok_empty (g0 : grid) (w : write) :
  wf_grid g0 = true -> write_ok g0 w ->
  (w_row w, w_col w) ∈ cells /\ cell g0 (w_row w, w_col w) = EMPTY.
Proof.
  intros Hwf [He Hc _ _ _ _].
  pose proof (find_next_empty_cell_Some _ _ _ Hc) as [Hp Hget]. split; [done|].
  apply (reach_fills _ _ He Hwf).
  rewrite wf_get in Hget by (by eapply reach_wf || done). by injection Hget.
Qed.

Lemma chain_keeps (g0 g g' : grid) (tr : list write) (p : nat * nat) :
  wf_grid g0 = true -> cell g0 p <> EMPTY ->
  chain g tr g' -> Forall (write_ok g0) tr -> cell g' p = cell g p.
Proof.
  intros Hwf Hclue. revert g. induction tr as [|w tr IH]; simpl; intros g.
  - by intros ->.
  - intros [<- Hchain] [Hw Htr]%Forall_cons. rewrite (IH _ Hchain Htr).
    destruct (write_ok_empty _ _ Hwf Hw) as [_ Hempty].
    eapply cell_set_ne; [by destruct Hw|]. intros ->. done.
Qed.

(** C6. On a 9x9 puzzle [solve_sudoku] returns, with [True] or not, and
    every cell that was not EMPTY in the input holds its input value in the
    puzzle it leaves; every assignment it performed went to a cell that was
    EMPTY in the input. *)
Theorem solve_sudoku_keeps_clues (puzzle : grid) :
  wf_grid puzzle = true ->
  exists o, solve_sudoku puzzle = Ret o /\
    (forall p, p ∈ cells -> cell puzzle p <> EMPTY -> cell (final o) p = cell puzzle p) /\
    Forall (fun w => cell puzzle (w_row w, w_col w) = EMPTY) (trace o).
Proof.
  intros Hwf. destruct (solve_sudoku_fuel puzzle Hwf) as (o & _ & Ho).
  exists o. split; [done|].
  destruct (solve_sudoku_sound _ _ Ho) as (Hchain & Hok & _). split.
  - intros p _ Hclue. by eapply chain_keeps.
  - eapply Forall_impl; [done|]. intros w Hw. by apply write_ok_empty.
Qed.

Lemma solve_sudoku_keeps_clues_witness :
  exists o, solve_sudoku blocked_grid = Ret o /\
    (forall p, p ∈ cells -> cell blocked_grid p <> EMPTY ->
               cell (final o) p = cell blocked_grid p) /\
    Forall (fun w => cell blocked_grid (w_row w, w_col w) = EMPTY) (trace o).
Proof. apply solve_sudoku_keeps_clues. reflexivity. Defined.

(** C7. On a 9x9 puzzle in which no value occurs twice in a unit,
    [solve_sudoku] returns, every assignment it performed was accepted by
    [is_valid_number] on the puzzle as it stood, and after each of them, and
    at the end, no value occurs twice in a unit. *)
Theorem search_stays_consistent (puzzle : grid) :
  wf_grid puzzle = true -> consistent puzzle = true ->
  exists o, solve_sudoku puzzle = Ret o /\
    chain puzzle (trace o) (final o) /\
    Forall (fun w =>
      is_valid_number (w_before w) (w_val w) (w_row w) (w_col w) = Ret true /\
      set_cell (w_before w) (w_row w) (w_col w) (w_val w) = Ret (w_after w) /\
      consistent (w_after w) = true) (trace o) /\
    consistent (final o) = true.
Proof.
  intros Hwf Hcons. destruct (solve_sudoku_fuel puzzle Hwf) as (o & _ & Ho).
  exists o. split; [done|].
  destruct (solve_sudoku_sound _ _ Ho) as (Hchain & Hok & _). split_and!; [done| |].
  - pose proof (chain_Forall_reach _ _ _ _ Hchain Hok (rtc_refl _ _)) as Hreach.
    rewrite Forall_forall in Hok. rewrite Forall_forall in Hreach.
    apply Forall_forall. intros w Hw. destruct (Hok w Hw). split_and!; [done..|].
    eapply reach_consistent; [by apply Hreach | done..].
  - eapply reach_consistent; [by eapply chain_reach | done..].
Qed.

Lemma search_stays_consistent_witness :
  exists o, solve_sudoku blocked_grid = Ret o /\
    chain blocked_grid (trace o) (final o) /\
    Forall (fun w =>
      is_valid_number (w_before w) (w_val w) (w_row w) (w_col w) = Ret true /\
      set_cell (w_before w) (w_row w) (w_col w) (w_val w) = Ret (w_after w) /\
      consistent (w_after w) = true) (trace o) /\
    consistent (final o) = true.
Proof. apply search_stays_consistent; vm_compute; reflexivity. Defined.

(** C8. On a 9x9 puzzle that is already solved, [solve_sudoku] returns
    [True] at once: in the first activation, without any assignment, and
    with the puzzle as it was. *)
Theorem solved_grid_untouched (puzzle : grid) :
  wf_grid puzzle = true -> full puzzle = true -> solved puzzle = true ->
  solve_sudoku puzzle = Ret (Outcome PyTrue puzzle []) /\
  solve_fuel 1 puzzle = Ret (Outcome PyTrue puzzle []).
Proof.
  intros Hwf Hfull _. apply find_next_empty_cell_full in Hfull; [|done].
  assert (solve_fuel 1 puzzle = Ret (Outcome PyTrue puzzle [])) as H1
    by (by rewrite solve_fuel_S, Hfull).
  split; [|done]. eapply solve_fuel_mono; [|done]. unfold recursion_limit. lia.
Qed.

Lemma solved_grid_untouched_witness :
  solve_sudoku solved_grid = Ret (Outcome PyTrue solved_grid []) /\
  solve_fuel 1 solved_grid = Ret (Outcome PyTrue solved_grid []).
Proof. apply solved_grid_untouched; vm_compute; reflexivity. Defined.

(** C9. On a 9x9 puzzle [solve_sudoku] returns, and a call stack with room
    for one activation more than the input has EMPTY cells, at most 82, is
    enough for it; every recursive call is made on a puzzle, the one just
    assigned to, with fewer EMPTY cells than the calling activation found. *)
Theorem recursion_depth_bounded (puzzle : grid) :
  wf_grid puzzle = true ->
  (count_empty puzzle <= 81)%nat /\
  exists o, solve_fuel (S (count_empty puzzle)) puzzle = Ret o /\
    solve_sudoku puzzle = Ret o /\
    Forall (fun w => (count_empty (w_after w) < count_empty (w_entry w))%nat /\
                     (count_empty (w_entry w) <= count_empty puzzle)%nat) (trace o).
Proof.
  intros Hwf. split; [apply count_empty_bound|].
  destruct (solve_sudoku_fuel puzzle Hwf) as (o & Hfuel & Ho).
  exists o. split_and!; [done..|].
  destruct (solve_sudoku_sound _ _ Ho) as (_ & Hok & _).
  eapply Forall_impl; [done|]. intros w Hw. split; [by eapply write_ok_count|].
  apply fills_count_empty, reach_fills; [by destruct Hw | done].
Qed.

Lemma recursion_depth_bounded_witness :
  (count_empty empty_grid <= 81)%nat /\
  exists o, solve_fuel (S (count_empty empty_grid)) empty_grid = Ret o /\
    solve_sudoku empty_grid = Ret o /\
    Forall (fun w => (count_empty (w_after w) < count_empty (w_entry w))%nat /\
                     (count_empty (w_entry w) <= count_empty empty_grid)%nat) (trace o).
Proof. apply recursion_depth_bounded. reflexivity. Defined.

(** C10. On a 9x9 puzzle with cells in 1..9 or EMPTY, [solve_sudoku]
    returns and leaves a puzzle with cells in 1..9 or EMPTY; every
    assignment it performed wrote a value of 1..9, at the cell that
    [find_next_empty_cell] returned to the activation performing it, and
    left a puzzle with cells in 1..9 or EMPTY. *)
Theorem solve_sudoku_keeps_domain (puzzle : grid) :
  wf_grid puzzle = true -> in_domain puzzle = true ->
  exists o, solve_sudoku puzzle = Ret o /\
    in_domain (final o) = true /\
    Forall (fun w =>
      1 <= w_val w <= 9 /\
      find_next_empty_cell (w_entry w) = Ret (Some (w_row w, w_col w)) /\
      set_cell (w_before w) (w_row w) (w_col w) (w_val w) = Ret (w_after w) /\
      in_domain (w_after w) = true) (trace o).
Proof.
  intros Hwf Hdom. destruct (solve_sudoku_fuel puzzle Hwf) as (o & _ & Ho).
  exists o. split; [done|].
  destruct (solve_sudoku_sound _ _ Ho) as (Hchain & Hok & _). split.
  - eapply reach_in_domain; [by eapply chain_reach | done].
  - pose proof (chain_Forall_reach _ _ _ _ Hchain Hok (rtc_refl _ _)) as Hreach.
    rewrite Forall_forall in Hok. rewrite Forall_forall in Hreach.
    apply Forall_forall. intros w Hw. destruct (Hok w Hw) as [_ ? _ Hv _ ?].
    apply elem_of_guesses in Hv. split_and!; [lia | lia | done | done |].
    eapply reach_in_domain; [by apply Hreach | done].
Qed.

Lemma solve_sudoku_keeps_domain_witness :
  exists o, solve_sudoku empty_grid = Ret o /\
    in_domain (final o) = true /\
    Forall (fun w =>
      1 <= w_val w <= 9 /\
      find_next_empty_cell (w_entry w) = Ret (Some (w_row w, w_col w)) /\
      set_cell (w_before w) (w_row w) (w_col w) (w_val w) = Ret (w_after w) /\
      in_domain (w_after w) = true) (trace o).
Proof. apply solve_sudoku_keeps_domain; reflexivity. Defined.

(** * Further properties of the three functions *)

(** ** The scan of find_next_empty_cell *)

(** A loop over a range ends with anything but a plain run-through exactly
    when some index gives that result and every index before it passes. *)
Lemma for_first_range_stop {B : Type} (body : nat -> result (option B))
    (a n : nat) (res : result (option B)) :
  res <> Ret None ->
  (for_first (range a n) body = res <->
   exists i, (a <= i < a + n)%nat /\ body i = res /\
             forall j, (a <= j < i)%nat -> body j = Ret None).
Proof.
  intros Hres. unfold range. revert a. induction n as [|n IH]; intros a; simpl.
  - split; [congruence | intros (i & Hi & _); lia].
  - split.
    + intros H. destruct (body a) as [[b|]| |] eqn:Ha; simpl in H.
      * exists a. split_and!; [lia | lia | congruence | intros; lia].
      * apply IH in H as (i & Hi & Hb & Hj). exists i. split_and!; [lia | lia | done |].
        intros j Hj'. destruct (decide (j = a)) as [->|]; [done | apply Hj; lia].
      * exists a. split_and!; [lia | lia | congruence | intros; lia].
      * exists a. split_and!; [lia | lia | congruence | intros; lia].
    + intros (i & Hi & Hb & Hj). destruct (decide (i = a)) as [->|Hne].
      * rewrite Hb. destruct res as [[b|]| |]; simpl; congruence.
      * rewrite (Hj a) by lia. simpl. apply IH. exists i. split_and!; [lia | lia | done |].
        intros j Hj'. apply Hj. lia.
Qed.

Lemma get_no_RecursionError (puzzle : grid) (r c : nat) :
  get puzzle r c <> RecursionError.
Proof.
  unfold get, index. destruct (puzzle !! r) as [row_vals|]; simpl; [|done].
  by destruct (row_vals !! c).
Qed.

(** The three ways the test of one cell can end. *)
Lemma probe_None (puzzle : grid) (r c : nat) :
  (let* x := get puzzle r c in if x =? -1 then Ret (Some (r, c)) else Ret None)
  = Ret None <-> filled puzzle (r, c).
Proof.
  unfold filled. simpl. split.
  - intros H. inv_bind H. exists a. split; [done|].
    destruct (Z.eqb_spec a (-1)); [discriminate | done].
  - intros (x & -> & Hx). simpl. apply Z.eqb_neq in Hx. unfold EMPTY in Hx.
    by rewrite Hx.
Qed.

Lemma probe_Some (puzzle : grid) (r c : nat) (p : nat * nat) :
  (let* x := get puzzle r c in if x =? -1 then Ret (Some (r, c)) else Ret None)
  = Ret (Some p) <-> p = (r, c) /\ get puzzle r c = Ret EMPTY.
Proof.
  split.
  - intros H. inv_bind H. destruct (Z.eqb_spec a (-1)) as [->|]; [|discriminate].
    by injection H as <-.
  - by intros [-> ->].
Qed.

Lemma probe_IndexError (puzzle : grid) (r c : nat) :
  (let* x := get puzzle r c in if x =? -1 then Ret (Some (r, c)) else Ret None)
  = IndexError <-> get puzzle r c = IndexError.
Proof.
  pose proof (get_no_RecursionError puzzle r c).
  destruct (get puzzle r c) as [x| |]; simpl; [|done..].
  by destruct (x =? -1).
Qed.

Lemma row_scan_None (puzzle : grid) (r : nat) :
  for_first (range 0 9) (fun c =>
    let* x := get puzzle r c in if x =? -1 then Ret (Some (r, c)) else Ret None)
  = Ret None <-> forall c, (c < 9)%nat -> filled puzzle (r, c).
Proof.
  rewrite for_first_None. setoid_rewrite elem_of_range. setoid_rewrite probe_None.
  split; intros H c Hc; apply H; lia.
Qed.

(** The cells before [(r, c)] are filled: the rows above entirely, and the
    row [r] up to column [c]. *)
Lemma scanned_before (puzzle : grid) (r c : nat) :
  (r < 9)%nat -> (c < 9)%nat ->
  ((forall r', (0 <= r' < r)%nat ->
     for_first (range 0 9) (fun c' =>
       let* x := get puzzle r' c' in
       if x =? -1 then Ret (Some (r', c')) else Ret None) = Ret None) /\
   (forall c', (0 <= c' < c)%nat ->
     (let* x := get puzzle r c' in
      if x =? -1 then Ret (Some (r, c')) else Ret None) = Ret None))
  <-> (forall q, q ∈ cells -> before q (r, c) -> filled puzzle q).
Proof.
  intros Hr Hc. setoid_rewrite row_scan_None. setoid_rewrite probe_None. split.
  - intros [Hrows Hcols] [r' c'] [Hr' Hc']%elem_of_cells Hb. unfold before in Hb.
    simpl in *. destruct Hb as [Hlt|[-> Hlt]].
    + apply Hrows; lia.
    + apply Hcols; lia.
  - intros H. split.
    + intros r' Hr' c' Hc'. apply H; [apply elem_of_cells; simpl; lia | left; simpl; lia].
    + intros c' Hc'. apply H; [apply elem_of_cells; simpl; lia | right; simpl; lia].
Qed.

Lemma find_next_empty_cell_stop (puzzle : grid) (res : result (option (nat * nat))) :
  res <> Ret None ->
  (find_next_empty_cell puzzle = res <->
   exists r c, (r, c) ∈ cells /\
     (let* x := get puzzle r c in if x =? -1 then Ret (Some (r, c)) else Ret None) = res /\
     forall q, q ∈ cells -> before q (r, c) -> filled puzzle q).
Proof.
  intros Hres. unfold find_next_empty_cell. rewrite for_first_range_stop by done. split.
  - intros (r & Hr & Hrow & Hrows). apply for_first_range_stop in Hrow; [|done].
    destruct Hrow as (c & Hc & Hcell & Hcols). exists r, c.
    split_and!; [apply elem_of_cells; simpl; lia | done |].
    apply scanned_before; [lia | lia | done].
  - intros (r & c & [Hr Hc]%elem_of_cells & Hcell & Hbefore). simpl in Hr, Hc.
    apply scanned_before in Hbefore as [Hrows Hcols]; [|lia..].
    exists r. split_and!; [lia | lia | | done].
    apply for_first_range_stop; [done|]. exists c. split_and!; [lia | lia | done | done].
Qed.

(** X1. Whatever the shape of the puzzle, [find_next_empty_cell] returns the
    cell [(r, c)] exactly when that cell lies on the 9x9 board and holds -1
    while every board cell before it, in row-major order, can be read and
    holds something else. *)
Theorem find_next_empty_cell_first (puzzle : grid) (r c : nat) :
  find_next_empty_cell puzzle = Ret (Some (r, c)) <->
  (r, c) ∈ cells /\ get puzzle r c = Ret EMPTY /\
  forall q, q ∈ cells -> before q (r, c) -> filled puzzle q.
Proof.
  rewrite find_next_empty_cell_stop by done. split.
  - intros (r' & c' & Hp & [[= -> ->] Hget]%probe_Some & Hbefore). done.
  - intros (Hp & Hget & Hbefore). exists r, c. split_and!; [done | | done].
    by apply probe_Some.
Qed.

(** X2. Whatever the shape of the puzzle, [find_next_empty_cell] raises
    IndexError exactly when some cell of the 9x9 board cannot be read while
    every board cell before it, in row-major order, can be read and does not
    hold -1. *)
Theorem find_next_empty_cell_IndexError (puzzle : grid) :
  find_next_empty_cell puzzle = IndexError <->
  exists r c, (r, c) ∈ cells /\ get puzzle r c = IndexError /\
    forall q, q ∈ cells -> before q (r, c) -> filled puzzle q.
Proof.
  rewrite find_next_empty_cell_stop by done.
  by setoid_rewrite probe_IndexError.
Qed.

(** X3. Whatever the shape of the puzzle, [find_next_empty_cell] returns
    [None, None] exactly when all 81 cells of the 9x9 board can be read and
    none holds -1; rows and columns beyond the ninth are not looked at. *)
Theorem find_next_empty_cell_none (puzzle : grid) :
  find_next_empty_cell puzzle = Ret None <->
  forall q, q ∈ cells -> filled puzzle q.
Proof.
  unfold find_next_empty_cell. rewrite for_first_None.
  setoid_rewrite elem_of_range. setoid_rewrite row_scan_None. split.
  - intros H [r c] [Hr Hc]%elem_of_cells. simpl in *. apply H; lia.
  - intros H r Hr c Hc. apply H, elem_of_cells. simpl. lia.
Qed.

(** X4. On a 9x9 puzzle, once a value other than -1 is stored in the cell
    that [find_next_empty_cell] returned, the next call returns a cell that
    comes strictly later in row-major order, or [None, None]. *)
Theorem find_next_empty_cell_progress (puzzle puzzle' : grid) (r c : nat) (v : Z) :
  wf_grid puzzle = true ->
  find_next_empty_cell puzzle = Ret (Some (r, c)) ->
  v <> EMPTY ->
  set_cell puzzle r c v = Ret puzzle' ->
  find_next_empty_cell puzzle' = Ret None \/
  exists p, find_next_empty_cell puzzle' = Ret (Some p) /\ before (r, c) p.
Proof.
  intros Hwf Hfind Hv Hset. pose proof (set_cell_wf _ _ _ _ _ Hset Hwf) as Hwf'.
  destruct (find_next_empty_cell_Ret puzzle' Hwf') as [[[r' c']|] Hfind']; [right|by left].
  exists (r', c'). split; [done|].
  apply find_next_empty_cell_stop in Hfind; [|done].
  destruct Hfind as (r0 & c0 & _ & [[= <- <-] _]%probe_Some & Hbefore).
  apply find_next_empty_cell_Some in Hfind' as [Hp' Hget'].
  assert (r' <> r \/ c' <> c) as Hne.
  { destruct (decide (r' = r)) as [->|]; [|by left].
    destruct (decide (c' = c)) as [->|]; [|by right].
    rewrite (get_set_eq _ _ _ _ _ Hset) in Hget'. congruence. }
  assert (before (r', c') (r, c) \/ before (r, c) (r', c')) as [Hlt|Hlt]
    by (unfold before; simpl; lia); [|done].
  destruct (Hbefore _ Hp' Hlt) as (x & Hx & Hxe). simpl in Hx.
  rewrite (get_set_ne _ _ _ _ _ r' c' Hset) in Hget' by (intros [= -> ->]; lia).
  congruence.
Qed.

Lemma find_next_empty_cell_progress_witness :
  find_next_empty_cell (<[0%nat := [7; -1; -1; -1; -1; -1; -1; -1; -1]]> empty_grid)
  = Ret None \/
  exists p, find_next_empty_cell
              (<[0%nat := [7; -1; -1; -1; -1; -1; -1; -1; -1]]> empty_grid)
            = Ret (Some p) /\ before (0, 0)%nat p.
Proof.
  apply (find_next_empty_cell_progress empty_grid _ 0 0 7);
    [reflexivity | reflexivity | discriminate | reflexivity].
Defined.

(** ** is_valid_number *)

Lemma contains_in_row (puzzle : grid) (guess : Z) (row : nat) (row_vals : list Z) :
  puzzle !! row = Some row_vals -> length row_vals = 9%nat ->
  contains guess row_vals = in_row puzzle guess row.
Proof.
  intros Hrow Hl. apply Bool.eq_iff_eq_true. unfold contains, in_row.
  rewrite existsb_lookup, existsb_range. split.
  - intros (i & x & Hi & Hx). exists i. pose proof (lookup_lt_Some _ _ _ Hi).
    split; [lia|]. unfold cell. simpl.
    rewrite (proj2 (get_Ret puzzle row i x)) by eauto. apply Z.eqb_eq in Hx. lia.
  - intros (i & Hi & Hx). destruct (lookup_lt_is_Some_2 row_vals i) as [x Hx']; [lia|].
    exists i, x. split; [done|]. unfold cell in Hx. simpl in Hx.
    rewrite (proj2 (get_Ret puzzle row i x)) in Hx by eauto.
    apply Z.eqb_eq in Hx. lia.
Qed.

(** X5. Whatever the shape of the puzzle, [is_valid_number] with a row
    index that is not below the number of rows raises IndexError. *)
Theorem is_valid_number_row_out_of_range (puzzle : grid) (guess : Z) (row col : nat) :
  (length puzzle <= row)%nat ->
  is_valid_number puzzle guess row col = IndexError.
Proof.
  intros Hrow. unfold is_valid_number, index.
  by rewrite (lookup_ge_None_2 puzzle row) by lia.
Qed.

Lemma is_valid_number_row_out_of_range_witness :
  is_valid_number clue_grid 5 9 0 = IndexError.
Proof. apply is_valid_number_row_out_of_range. vm_compute. lia. Defined.

(** X6. On a 9x9 puzzle, [is_valid_number] with a row index on the board
    and a column index of 9 or more returns False when the value stands in
    that row, and raises IndexError otherwise. *)
Theorem is_valid_number_col_out_of_range (puzzle : grid) (guess : Z) (row col : nat) :
  wf_grid puzzle = true -> (row < 9)%nat -> (9 <= col)%nat ->
  is_valid_number puzzle guess row col
  = if in_row puzzle guess row then Ret false else IndexError.
Proof.
  intros Hwf Hrow Hcol. pose proof Hwf as [Hlen Hrows]%wf_grid_spec.
  unfold is_valid_number.
  destruct (lookup_lt_is_Some_2 puzzle row) as [row_vals Hr]; [lia|].
  assert (length row_vals = 9%nat) as Hl by (by eapply (Forall_lookup_1 _ _ _ _ Hrows)).
  rewrite (proj2 (index_Ret _ _ _) Hr). cbn [bind].
  rewrite (contains_in_row puzzle guess row row_vals Hr Hl).
  destruct (in_row puzzle guess row); [done|].
  destruct (lookup_lt_is_Some_2 puzzle 0) as [top Htop]; [lia|].
  assert (length top = 9%nat) as Hltop by (by eapply (Forall_lookup_1 _ _ _ _ Hrows)).
  change (range 0 9) with (0%nat :: range 1 8). cbn [for_first].
  unfold get at 1. rewrite (proj2 (index_Ret _ _ _) Htop). cbn [bind].
  unfold index at 1. by rewrite (lookup_ge_None_2 top col) by lia.
Qed.

Lemma is_valid_number_col_out_of_range_witness :
  is_valid_number clue_grid 5 0 9
  = if in_row clue_grid 5 0 then Ret false else IndexError.
Proof. apply is_valid_number_col_out_of_range; [reflexivity | lia | lia]. Defined.

(** X7. On a 9x9 puzzle, once a value is stored in a cell of the board,
    [is_valid_number] answers False for that value at that cell and at
    every cell of its row, its column and its box. *)
Theorem is_valid_number_after_write (puzzle puzzle' : grid) (guess : Z)
    (row col r c : nat) :
  wf_grid puzzle = true ->
  (r, c) ∈ cells ->
  same_unit (row, col) (r, c) = true ->
  set_cell puzzle row col guess = Ret puzzle' ->
  is_valid_number puzzle' guess r c = Ret false.
Proof.
  intros Hwf Hq Hu Hset. pose proof (set_cell_wf _ _ _ _ _ Hset Hwf) as Hwf'.
  rewrite is_valid_number_occurs by done. f_equal. apply negb_false_iff, occurs_spec.
  exists (row, col). split_and!.
  - apply set_cell_Ret in Hset as (row_vals & Hr & Hc & _).
    pose proof Hwf as [Hlen Hrows]%wf_grid_spec.
    pose proof (lookup_lt_Some _ _ _ Hr).
    pose proof (Forall_lookup_1 _ _ _ _ Hrows Hr). apply elem_of_cells. simpl in *. lia.
  - by rewrite same_unit_sym.
  - by eapply cell_set_eq.
Qed.

Lemma is_valid_number_after_write_witness :
  is_valid_number (<[0%nat := [7; -1; -1; -1; -1; -1; -1; -1; -1]]> empty_grid) 7 2 2
  = Ret false.
Proof.
  apply (is_valid_number_after_write empty_grid _ 7 0 0 2 2);
    [reflexivity | apply elem_of_cells; simpl; lia | reflexivity | reflexivity].
Defined.

(** X8. On a 9x9 puzzle, an assignment to a cell that shares no row, column
    or box with the target leaves the answer of [is_valid_number] for the
    target unchanged. *)
Theorem is_valid_number_frame (puzzle puzzle' : grid) (guess x : Z)
    (row col r c : nat) :
  wf_grid puzzle = true ->
  (row, col) ∈ cells ->
  same_unit (row, col) (r, c) = false ->
  set_cell puzzle r c x = Ret puzzle' ->
  is_valid_number puzzle' guess row col = is_valid_number puzzle guess row col.
Proof.
  intros Hwf Hp Hu Hset. pose proof (set_cell_wf _ _ _ _ _ Hset Hwf) as Hwf'.
  rewrite !is_valid_number_occurs by done. do 2 f_equal.
  apply Bool.eq_iff_eq_true. rewrite !occurs_spec.
  split; intros (q & Hq & Hqu & Hv); exists q; (split_and!; [done | done |]).
  - rewrite <- Hv. symmetry. eapply cell_set_ne; [done|]. intros ->. congruence.
  - rewrite <- Hv. eapply cell_set_ne; [done|]. intros ->. congruence.
Qed.

Lemma is_valid_number_frame_witness :
  is_valid_number (<[4%nat := [-1; -1; -1; -1; 7; -1; -1; -1; -1]]> empty_grid) 7 0 0
  = is_valid_number empty_grid 7 0 0.
Proof.
  apply (is_valid_number_frame empty_grid _ 7 7 0 0 4 4);
    [reflexivity | apply elem_of_cells; simpl; lia | reflexivity | reflexivity].
Defined.

(** X9. On a 9x9 puzzle with no value twice in a unit, for a target cell
    that holds -1 and a value of 1..9, [is_valid_number] returns True
    exactly when storing the value in the target leaves a puzzle with no
    value twice in a unit. *)
Theorem is_valid_number_iff_consistent (puzzle puzzle' : grid) (guess : Z)
    (row col : nat) :
  wf_grid puzzle = true -> consistent puzzle = true ->
  (row, col) ∈ cells -> cell puzzle (row, col) = EMPTY ->
  1 <= guess <= 9 ->
  set_cell puzzle row col guess = Ret puzzle' ->
  (is_valid_number puzzle guess row col = Ret true <-> consistent puzzle' = true).
Proof.
  intros Hwf Hcons Hp Hempty Hguess Hset. split.
  - intros Hvalid. eapply step_consistent; [|done..].
    exists row, col, guess. by rewrite elem_of_guesses.
  - intros Hcons'. rewrite is_valid_number_occurs by done. f_equal.
    apply negb_true_iff, not_true_iff_false.
    intros (q & Hq & Hu & Hv)%occurs_spec.
    assert (q <> (row, col)) as Hne by (intros ->; unfold EMPTY in *; lia).
    rewrite consistent_spec in Hcons'. apply (Hcons' (row, col) q); try done.
    + rewrite (cell_set_eq _ _ _ _ _ Hset). unfold EMPTY. lia.
    + by rewrite (cell_set_eq _ _ _ _ _ Hset), (cell_set_ne _ _ _ _ _ q Hset).
Qed.

Lemma is_valid_number_iff_consistent_witness :
  is_valid_number one_hole_grid 2 8 8 = Ret true <-> consistent solved_grid = true.
Proof.
  apply (is_valid_number_iff_consistent one_hole_grid solved_grid 2 8 8);
    [reflexivity | reflexivity | apply elem_of_cells; simpl; lia | reflexivity
    | lia | reflexivity].
Defined.

(** ** solve_sudoku *)

Lemma try_guesses_rejected (rec : grid -> result outcome) (entry puzzle : grid)
    (row col : nat) (skipped todo : list Z) :
  (forall v, v ∈ skipped -> is_valid_number puzzle v row col = Ret false) ->
  try_guesses rec entry row col (skipped ++ todo) puzzle
  = try_guesses rec entry row col todo puzzle.
Proof.
  induction skipped as [|v skipped IH]; intros H; [done|].
  simpl. rewrite (H v) by left. cbn [bind]. apply IH. intros v' Hv'. apply H. by right.
Qed.

Lemma solve_sudoku_S (puzzle : grid) :
  solve_sudoku puzzle = solve_fuel (S 999) puzzle.
Proof. reflexivity. Qed.

(** X10. When [find_next_empty_cell] returns a cell at which
    [is_valid_number] rejects each of 1..9, [solve_sudoku] returns None
    without a single assignment, the puzzle being as it was. *)
Theorem solve_sudoku_dead_end (puzzle : grid) (row col : nat) :
  find_next_empty_cell puzzle = Ret (Some (row, col)) ->
  (forall v, 1 <= v <= 9 -> is_valid_number puzzle v row col = Ret false) ->
  solve_sudoku puzzle = Ret (Outcome PyNone puzzle []).
Proof.
  intros Hfind Hrej. rewrite solve_sudoku_S, solve_fuel_S, Hfind. cbn [bind].
  rewrite <- (app_nil_r guesses), try_guesses_rejected; [done|].
  intros v Hv%elem_of_guesses. by apply Hrej.
Qed.

Lemma solve_sudoku_dead_end_witness :
  solve_sudoku dead_end_grid = Ret (Outcome PyNone dead_end_grid []).
Proof.
  apply (solve_sudoku_dead_end dead_end_grid 0 8); [reflexivity|].
  intros v Hv.
  assert (v = 1 \/ v = 2 \/ v = 3 \/ v = 4 \/ v = 5 \/ v = 6 \/ v = 7 \/ v = 8 \/ v = 9)
    as H by lia.
  repeat (destruct H as [->|H]; [reflexivity|]). subst. reflexivity.
Defined.

Lemma guesses_split (v : Z) :
  1 <= v <= 9 ->
  exists smaller larger, guesses = smaller ++ v :: larger /\
    forall x, x ∈ smaller -> 1 <= x < v.
Proof.
  intros Hv. exists (take (Z.to_nat v - 1) guesses), (drop (Z.to_nat v) guesses).
  assert (v = 1 \/ v = 2 \/ v = 3 \/ v = 4 \/ v = 5 \/ v = 6 \/ v = 7 \/ v = 8 \/ v = 9)
    as H by lia.
  assert (forall x : Z, x ∈ @nil Z -> 1 <= x < v) as Hnil
    by (intros x Hx; by apply elem_of_nil in Hx).
  destruct H as [->|[->|[->|[->|[->|[->|[->|[->| ->]]]]]]]];
    (split; [reflexivity|]); intros x Hx; vm_compute in Hx;
    repeat (apply elem_of_cons in Hx as [->|Hx]; [lia|]); by apply elem_of_nil in Hx.
Qed.

(** X11. When storing the smallest value of 1..9 that [is_valid_number]
    accepts at the cell [find_next_empty_cell] returned leaves a 9x9 puzzle
    without EMPTY cell, [solve_sudoku] returns True after that single
    assignment. *)
Theorem solve_sudoku_last_cell (puzzle puzzle' : grid) (row col : nat) (v : Z) :
  wf_grid puzzle' = true -> full puzzle' = true ->
  find_next_empty_cell puzzle = Ret (Some (row, col)) ->
  1 <= v <= 9 ->
  is_valid_number puzzle v row col = Ret true ->
  (forall x, 1 <= x < v -> is_valid_number puzzle x row col = Ret false) ->
  set_cell puzzle row col v = Ret puzzle' ->
  solve_sudoku puzzle
  = Ret (Outcome PyTrue puzzle' [Write puzzle puzzle row col v puzzle']).
Proof.
  intros Hwf' Hfull' Hfind Hv Hvalid Hrej Hset.
  apply find_next_empty_cell_full in Hfull'; [|done].
  destruct (guesses_split v Hv) as (smaller & larger & Hsplit & Hsmaller).
  rewrite solve_sudoku_S, solve_fuel_S, Hfind. cbn [bind].
  rewrite Hsplit, try_guesses_rejected by (intros x Hx; apply Hrej; by apply Hsmaller).
  cbn [try_guesses]. rewrite Hvalid. cbn [bind]. rewrite Hset. cbn [bind].
  by rewrite solve_fuel_S, Hfull'.
Qed.

Lemma solve_sudoku_last_cell_witness :
  solve_sudoku one_hole_grid
  = Ret (Outcome PyTrue solved_grid [Write one_hole_grid one_hole_grid 8 8 2 solved_grid]).
Proof.
  apply (solve_sudoku_last_cell one_hole_grid solved_grid 8 8 2);
    [reflexivity | reflexivity | reflexivity | lia | reflexivity | | reflexivity].
  intros x Hx. assert (x = 1) as -> by lia. reflexivity.
Defined.

Section LoopNone.

Variable rec : grid -> result outcome.
Variable entry : grid.
Variables row col : nat.
Hypothesis rec_sound : forall g o, rec g = Ret o -> sound g o.
Hypothesis rec_none :
  forall g o, wf_grid g = true -> rec g = Ret o -> returned o = PyNone ->
              full (final o) = false.
Hypothesis entry_wf : wf_grid entry = true.
Hypothesis entry_cell : find_next_empty_cell entry = Ret (Some (row, col)).

Lemma try_guesses_None_not_full (todo : list Z) (puzzle : grid) (o : outcome) :
  (forall v, v ∈ todo -> v ∈ guesses) ->
  reach entry puzzle -> full puzzle = false ->
  try_guesses rec entry row col todo puzzle = Ret o ->
  returned o = PyNone -> full (final o) = false.
Proof.
  revert puzzle o. induction todo as [|guess todo IH];
    intros puzzle o Hin Hreach Hfull H Hnone.
  - by injection H as <-.
  - assert (forall v, v ∈ todo -> v ∈ guesses) as Hin' by (intros v Hv; apply Hin; by right).
    simpl in H. inv_bind H. destruct a; [|by eapply IH].
    rename Ha into Hvalid. inv_bind H. rename a into puzzle1, Ha into Hset.
    inv_bind H. rename a into o1, Ha into Hrec.
    pose proof (find_next_empty_cell_Some _ _ _ entry_cell) as [Hcell _].
    assert (guess ∈ guesses) as Hguess by (apply Hin; left).
    assert (reach entry puzzle1) as Hreach1
      by (eapply rtc_r; [done | by exists row, col, guess]).
    destruct (rec_sound _ _ Hrec) as (Hchain1 & Hok1 & Hret1).
    destruct (truthy (returned o1)) eqn:Htruthy.
    + injection H as <-. discriminate Hnone.
    + inv_bind H. rename a into o2. injection H as <-. simpl in *.
      destruct Hret1 as [[Ht _]|Hn1]; [by rewrite Ht in Htruthy|].
      eapply (IH (final o1)); try done.
      * etrans; [done|]. by eapply chain_reach.
      * apply (rec_none puzzle1); [by eapply reach_wf | done..].
Qed.

End LoopNone.

Lemma solve_fuel_None_not_full (n : nat) (puzzle : grid) (o : outcome) :
  wf_grid puzzle = true -> solve_fuel n puzzle = Ret o ->
  returned o = PyNone -> full (final o) = false.
Proof.
  revert puzzle o. induction n as [|n IH]; intros puzzle o Hwf H Hnone; [discriminate|].
  rewrite solve_fuel_S in H. inv_bind H. destruct a as [[row col]|].
  - apply (try_guesses_None_not_full (solve_fuel n) puzzle row col
             (solve_fuel_sound n) IH Hwf Ha guesses puzzle o);
      [done | apply rtc_refl | | done | done].
    apply not_true_iff_false. intros Hfull%find_next_empty_cell_full; [|done].
    congruence.
  - injection H as <-. discriminate Hnone.
Qed.

(** X12. On a 9x9 puzzle [solve_sudoku] returns True exactly when the
    puzzle it leaves has no EMPTY cell. *)
Theorem solve_sudoku_True_iff_full (puzzle : grid) :
  wf_grid puzzle = true ->
  exists o, solve_sudoku puzzle = Ret o /\
    (returned o = PyTrue <-> full (final o) = true).
Proof.
  intros Hwf. destruct (solve_sudoku_fuel puzzle Hwf) as (o & _ & Ho).
  exists o. split; [done|].
  destruct (solve_sudoku_sound _ _ Ho) as (Hchain & Hok & Hret).
  pose proof (reach_wf _ _ (chain_reach _ _ _ _ Hchain Hok) Hwf) as Hwf'. split.
  - intros Ht. destruct Hret as [[_ Hnone]|Hn]; [|congruence].
    by apply find_next_empty_cell_full.
  - intros Hfull. destruct Hret as [[Ht _]|Hn]; [done|].
    pose proof (solve_fuel_None_not_full _ _ _ Hwf Ho Hn). congruence.
Qed.

Lemma solve_sudoku_True_iff_full_witness :
  exists o, solve_sudoku empty_grid = Ret o /\
    (returned o = PyTrue <-> full (final o) = true).
Proof. apply solve_sudoku_True_iff_full. reflexivity. Defined.

(** X13. When [solve_sudoku] has returned True, a second call on the puzzle
    it left returns True without any assignment and leaves the puzzle as it
    is. *)
Theorem solve_sudoku_again (puzzle : grid) (o : outcome) :
  solve_sudoku puzzle = Ret o -> returned o = PyTrue ->
  solve_sudoku (final o) = Ret (Outcome PyTrue (final o) []).
Proof.
  intros (_ & _ & Hret)%solve_sudoku_sound Ht.
  destruct Hret as [[_ Hnone]|Hn]; [|congruence].
  by rewrite solve_sudoku_S, solve_fuel_S, Hnone.
Qed.

Lemma solve_sudoku_again_witness :
  solve_sudoku solved_grid = Ret (Outcome PyTrue solved_grid []).
Proof.
  apply (solve_sudoku_again one_hole_grid
           (Outcome PyTrue solved_grid
              [Write one_hole_grid one_hole_grid 8 8 2 solved_grid]));
    vm_compute; reflexivity.
Defined.

Lemma chain_suffix_reach (g0 g g' : grid) (tr : list write) :
  chain g tr g' -> Forall (write_ok g0) tr ->
  Forall (fun w => reach (w_after w) g') tr.
Proof.
  revert g. induction tr as [|w tr IH]; simpl; intros g; [constructor|].
  intros [<- Hchain] [Hw Htr]%Forall_cons.
  constructor; [by eapply chain_reach | by eapply IH].
Qed.

(** X14. On a 9x9 puzzle [solve_sudoku] returns, and every cell it has
    assigned to, EMPTY in the input, is not EMPTY in the puzzle it leaves;
    so the puzzle is left as it was exactly when no assignment was made. *)
Theorem solve_sudoku_writes_stay (puzzle : grid) :
  wf_grid puzzle = true ->
  exists o, solve_sudoku puzzle = Ret o /\
    Forall (fun w => cell puzzle (w_row w, w_col w) = EMPTY /\
                     cell (final o) (w_row w, w_col w) <> EMPTY) (trace o) /\
    (final o = puzzle <-> trace o = []).
Proof.
  intros Hwf. destruct (solve_sudoku_fuel puzzle Hwf) as (o & _ & Ho).
  exists o. split; [done|].
  destruct (solve_sudoku_sound _ _ Ho) as (Hchain & Hok & _).
  assert (Forall (fun w => cell puzzle (w_row w, w_col w) = EMPTY /\
                           cell (final o) (w_row w, w_col w) <> EMPTY) (trace o)) as Hall.
  { pose proof (chain_Forall_reach _ _ _ _ Hchain Hok (rtc_refl _ _)) as Hbefore.
    pose proof (chain_suffix_reach _ _ _ _ Hchain Hok) as Hafter.
    rewrite Forall_forall in Hok. rewrite Forall_forall in Hbefore.
    rewrite Forall_forall in Hafter. apply Forall_forall. intros w Hw.
    destruct (write_ok_empty _ _ Hwf (Hok w Hw)) as [_ Hempty]. split; [done|].
    intros Hfinal.
    apply (reach_fills _ _ (Hafter w Hw)) in Hfinal;
      [|by apply (reach_wf _ _ (Hbefore w Hw))].
    destruct (Hok w Hw) as [_ _ _ Hv%elem_of_guesses _ Hset].
    rewrite (cell_set_eq _ _ _ _ _ Hset) in Hfinal. unfold EMPTY in Hfinal. lia. }
  split; [done|]. split.
  - intros Heq. destruct (trace o) as [|w tr]; [done|].
    apply Forall_cons in Hall as [[He Hne] _]. by rewrite Heq in Hne.
  - intros Hnil. rewrite Hnil in Hchain. done.
Qed.

Lemma solve_sudoku_writes_stay_witness :
  exists o, solve_sudoku blocked_grid = Ret o /\
    Forall (fun w => cell blocked_grid (w_row w, w_col w) = EMPTY /\
                     cell (final o) (w_row w, w_col w) <> EMPTY) (trace o) /\
    (final o = blocked_grid <-> trace o = []).
Proof. apply solve_sudoku_writes_stay. reflexivity. Defined.

Lemma solve_sudoku_never_False_witness :
  returned (Outcome PyNone dead_end_grid []) = PyTrue \/
  returned (Outcome PyNone dead_end_grid []) = PyNone.
Proof.
  apply (solve_sudoku_never_False dead_end_grid). vm_compute. reflexivity.
Defined.
